(** * LLM usage telemetry and context-budget control

    A shallow embedding of the usage logger ([llm-usage]: message analyzer,
    loop detector, stream-function wrapper), of the message compactor
    ([compactMessages]) and of the history turn limiter
    ([pi-embedded-runner/history.ts]), with the properties their
    specification states about them. *)

From stdpp Require Import gmap strings list fin_maps pretty.
From Stdlib Require Import ZArith Lia.

#[local] Set Warnings "-clear-no-such-hyp".

Local Open Scope Z_scope.

(** ** JavaScript data *)

Module Js.

(** A JavaScript string is a sequence of UTF-16 code units; [length] is the
    number of code units. *)
Abbreviation jsstring := (list N).

(** An ASCII literal as a JavaScript string. *)
Definition u16 (s : string) : jsstring :=
  Ascii.N_of_ascii <$> String.list_ascii_of_string s.

(** [s.length] of a string and [a.length] of an array. *)
Definition len {A : Type} (s : list A) : Z := Z.of_nat (length s).

(** The values the code inspects at run time: plain data, that is finite
    trees without functions, symbols or getters.  Numbers are the integers;
    an object is the list of its own properties in enumeration order. *)
#[warnings="-register-all"]
Inductive value : Type :=
  | VUndefined
  | VNull
  | VBool (b : bool)
  | VNum (n : Z)
  | VStr (s : jsstring)
  | VArr (items : list value)
  | VObj (props : list (string * value)).

(** What a throwing expression raises: the [TypeError] of a property read
    on [null] or [undefined], or any value a callee throws. *)
Inductive exn : Type :=
  | TypeError
  | Raised (v : value).

Inductive result (A : Type) : Type :=
  | Ok (a : A)
  | Throw (e : exn).
Arguments Ok {A} a.
Arguments Throw {A} e.

#[global] Instance result_ret : MRet result := fun _ a => Ok a.
#[global] Instance result_bind : MBind result := fun _ _ f r =>
  match r with
  | Ok a => f a
  | Throw e => Throw e
  end.

(** [!v] is false exactly on the truthy values. *)
Definition truthy (v : value) : bool :=
  match v with
  | VUndefined | VNull => false
  | VBool b => b
  | VNum n => negb (n =? 0)
  | VStr s => negb (bool_decide (s = []))
  | VArr _ | VObj _ => true
  end.

(** [typeof v === "object"] *)
Definition typeofObject (v : value) : bool :=
  match v with
  | VNull | VArr _ | VObj _ => true
  | _ => false
  end.

(** [Array.isArray(v)] *)
Definition isArray (v : value) : bool :=
  match v with
  | VArr _ => true
  | _ => false
  end.

Fixpoint lookupProp (k : string) (props : list (string * value)) : value :=
  match props with
  | [] => VUndefined
  | (k', v) :: rest => if String.eqb k k' then v else lookupProp k rest
  end.

(** [v.k] on a value that is neither [null] nor [undefined], for the
    property names this code reads ([messages], [content], [text], [role]):
    none of them is defined on an array or on a primitive. *)
Definition field (k : string) (v : value) : value :=
  match v with
  | VObj props => lookupProp k props
  | _ => VUndefined
  end.

(** [v.k]: reading a property of [null] or [undefined] throws. *)
Definition getProp (k : string) (v : value) : result value :=
  match v with
  | VUndefined | VNull => Throw TypeError
  | _ => Ok (field k v)
  end.

(** [v?.k] *)
Definition getPropOpt (k : string) (v : value) : value :=
  match v with
  | VUndefined | VNull => VUndefined
  | _ => field k v
  end.

(** The properties of [{ ...o, k: v }]: [k] keeps its place when [o] has it,
    and comes last otherwise. *)
Fixpoint setProp (k : string) (v : value) (props : list (string * value))
  : list (string * value) :=
  match props with
  | [] => [(k, v)]
  | (k', v') :: rest =>
      if String.eqb k k' then (k', v) :: rest else (k', v') :: setProp k v rest
  end.

(** [{ ...o, k: v }] for an object [o]. *)
Definition spreadWith (o : value) (k : string) (v : value) : value :=
  match o with
  | VObj props => VObj (setProp k v props)
  | _ => VObj [(k, v)]
  end.

(** [v === s] for a string literal [s]. *)
Definition isString (v : value) (s : jsstring) : bool :=
  match v with
  | VStr s' => bool_decide (s' = s)
  | _ => false
  end.

(** [Array.prototype.slice(start)]: a negative [start] counts from the end. *)
Definition sliceFrom {A} (start : Z) (l : list A) : list A :=
  let n := Z.of_nat (length l) in
  let k := if start <? 0 then Z.max (n + start) 0 else Z.min start n in
  drop (Z.to_nat k) l.

(** [String.prototype.slice(0, e)]: a negative [e] counts from the end. *)
Definition sliceTo (e : Z) (s : jsstring) : jsstring :=
  let n := len s in
  let k := if e <? 0 then Z.max (n + e) 0 else Z.min e n in
  take (Z.to_nat k) s.

(** *** [JSON.stringify] on these values *)

Definition isHighSurrogate (c : N) : bool := ((55296 <=? c) && (c <=? 56319))%N.
Definition isLowSurrogate (c : N) : bool := ((56320 <=? c) && (c <=? 57343))%N.

Definition hexDigit (d : N) : N :=
  if (d <? 10)%N then (48 + d)%N else (87 + d)%N.

(** The six characters of a [\uXXXX] escape. *)
Definition unicodeEscape (c : N) : jsstring :=
  [92; 117; hexDigit (c / 4096 mod 16); hexDigit (c / 256 mod 16);
   hexDigit (c / 16 mod 16); hexDigit (c mod 16)]%N.

(** The escapes of [QuoteJSONString]: the two-character ones, [\uXXXX] for
    the other control characters and for a surrogate without its partner. *)
Fixpoint quoteChars (s : jsstring) : jsstring :=
  match s with
  | [] => []
  | c :: rest =>
      if (c =? 8)%N then [92; 98]%N ++ quoteChars rest
      else if (c =? 9)%N then [92; 116]%N ++ quoteChars rest
      else if (c =? 10)%N then [92; 110]%N ++ quoteChars rest
      else if (c =? 12)%N then [92; 102]%N ++ quoteChars rest
      else if (c =? 13)%N then [92; 114]%N ++ quoteChars rest
      else if (c =? 34)%N then [92; 34]%N ++ quoteChars rest
      else if (c =? 92)%N then [92; 92]%N ++ quoteChars rest
      else if (c <? 32)%N then unicodeEscape c ++ quoteChars rest
      else if isHighSurrogate c then
        match rest with
        | d :: rest' =>
            if isLowSurrogate d then c :: d :: quoteChars rest'
            else unicodeEscape c ++ quoteChars rest
        | [] => unicodeEscape c
        end
      else if isLowSurrogate c then unicodeEscape c ++ quoteChars rest
      else c :: quoteChars rest
  end.

Definition quoteJSONString (s : jsstring) : jsstring :=
  [34%N] ++ quoteChars s ++ [34%N].

Fixpoint joinComma (parts : list jsstring) : jsstring :=
  match parts with
  | [] => []
  | [part] => part
  | part :: rest => part ++ 44%N :: joinComma rest
  end.

(** [JSON.stringify(v)], [None] for [undefined].  The properties of an
    object are written in the order of its list; a number prints in decimal,
    as every integer of magnitude below 10^21 does. *)
Fixpoint JSON_stringify (v : value) : option jsstring :=
  match v with
  | VUndefined => None
  | VNull => Some (u16 "null")
  | VBool b => Some (u16 (if b then "true" else "false"))
  | VNum n => Some (u16 (pretty n))
  | VStr s => Some (quoteJSONString s)
  | VArr items =>
      Some ([91%N]
            ++ joinComma ((fun item => default (u16 "null") (JSON_stringify item)) <$> items)
            ++ [93%N])
  | VObj props =>
      Some ([123%N]
            ++ joinComma
                 (omap (fun p => (fun text => quoteJSONString (u16 p.1) ++ 58%N :: text)
                                   <$> JSON_stringify p.2) props)
            ++ [125%N])
  end.

End Js.

Import Js.

(** ** The usage logger: message analyzer, loop detector, wrapper *)

Module Usage.

(** *** Loop detection *)

(** One entry of [loopTracker], held per session key. *)
Record LoopEntry : Type := mkLoopEntry {
  messageCount : Z;
  totalChars : Z;
  streak : Z
}.

Definition LOOP_STREAK_THRESHOLD : Z := 3.

(** A count as it prints in a template literal. *)
Definition showNum (n : Z) : jsstring := u16 (pretty n).

Definition loopWarningText (sessionKey : jsstring) (messageCount totalChars streak : Z)
  : jsstring :=
  u16 "LOOP_BREAK: session " ++ sessionKey ++ u16 " has sent the same context "
  ++ u16 "(messages=" ++ showNum messageCount ++ u16 ", chars=" ++ showNum totalChars
  ++ u16 ") " ++ showNum streak ++ u16 " times consecutively".

(** [checkAndUpdateLoopTracker]: the warning returned, if any, and the
    tracker map after the call. *)
Definition checkAndUpdateLoopTracker (sessionKey : jsstring) (mc tc : Z)
    (loopTracker : gmap jsstring LoopEntry)
  : option jsstring * gmap jsstring LoopEntry :=
  match loopTracker !! sessionKey with
  | Some entry =>
      if bool_decide (messageCount entry = mc) && bool_decide (totalChars entry = tc)
      then
        let entry' := mkLoopEntry (messageCount entry) (totalChars entry) (streak entry + 1) in
        let loopTracker' := <[sessionKey := entry']> loopTracker in
        if LOOP_STREAK_THRESHOLD <=? streak entry'
        then (Some (loopWarningText sessionKey mc tc (streak entry')), loopTracker')
        else (None, loopTracker')
      else (None, <[sessionKey := mkLoopEntry mc tc 1]> loopTracker)
  | None => (None, <[sessionKey := mkLoopEntry mc tc 1]> loopTracker)
  end.

(** A run of observations for one session key: the warnings in call order
    and the tracker at the end. *)
Fixpoint observeAll (sessionKey : jsstring) (shapes : list (Z * Z))
    (loopTracker : gmap jsstring LoopEntry)
  : list (option jsstring) * gmap jsstring LoopEntry :=
  match shapes with
  | [] => ([], loopTracker)
  | (mc, tc) :: rest =>
      let '(w, t1) := checkAndUpdateLoopTracker sessionKey mc tc loopTracker in
      let '(ws, t2) := observeAll sessionKey rest t1 in
      (w :: ws, t2)
  end.

(** *** Token estimation *)

(** [Math.ceil(chars / 4)] *)
Definition estimateTokens (chars : Z) : Z := (chars + 3) / 4.

(** *** Message size helpers *)

(** A [for (const x of items)] loop whose body may throw. *)
Fixpoint forOf {A B : Type} (body : A -> B -> result A) (acc : A) (items : list B)
  : result A :=
  match items with
  | [] => Ok acc
  | x :: rest => acc' ← body acc x; forOf body acc' rest
  end.

(** The body of the loop over content blocks. *)
Definition countBlock (chars : Z) (block : value) : result Z :=
  text ← getProp "text" block;
  match text with
  | VStr t => Ok (chars + len t)
  | _ => Ok chars
  end.

Definition countMessageChars (msg : value) : result Z :=
  content ← getProp "content" msg;
  match content with
  | VStr s => Ok (len s)
  | VArr blocks => forOf countBlock 0 blocks
  | _ => Ok 0
  end.

Record Analysis : Type := mkAnalysis {
  totalTextChars : Z;
  maxMessageTextChars : Z
}.

Definition analyzeStep (acc : Analysis) (msg : value) : result Analysis :=
  chars ← countMessageChars msg;
  Ok (mkAnalysis (totalTextChars acc + chars)
        (if maxMessageTextChars acc <? chars then chars else maxMessageTextChars acc)).

Definition analyzeMessages (messages : list value) : result Analysis :=
  forOf analyzeStep (mkAnalysis 0 0) messages.

(** The entries the analyzer cannot read: [null] or [undefined] itself, or
    a message whose block array holds [null] or [undefined]. *)
Definition nullish (v : value) : bool :=
  match v with
  | VUndefined | VNull => true
  | _ => false
  end.

Definition unreadable (msg : value) : bool :=
  nullish msg
  || match field "content" msg with
     | VArr blocks => existsb nullish blocks
     | _ => false
     end.

(** *** Events and the world the logger writes to *)

Inductive UsageLogStage : Type :=
  | StageInput
  | StageUsage
  | StageLoopBreak.

(** The identity fields a logger instance is created with ([params], and
    the [base] part of every event). *)
Record LoggerParams : Type := mkLoggerParams {
  runId : option jsstring;
  sessionId : option jsstring;
  sessionKey : option jsstring;
  provider : option jsstring;
  modelId : option jsstring
}.

Record UsageLogEvent : Type := mkUsageLogEvent {
  base : LoggerParams;
  ts : jsstring;
  stage : UsageLogStage;
  ev_messageCount : Z;
  ev_totalTextChars : Z;
  ev_maxMessageTextChars : Z;
  estimatedInputTokens : Z;
  loopWarning : option jsstring;
  inputTokens : option Z;
  outputTokens : option Z;
  cacheReadTokens : option Z;
  cacheWriteTokens : option Z;
  error : option jsstring
}.

Inductive LogLevel : Type :=
  | LogDebug
  | LogInfo
  | LogWarn.

(** The [usage] argument of [recordUsage]: the token counts the provider
    returned, any of them possibly absent. *)
Record UsageTotals : Type := mkUsageTotals {
  input : option Z;
  output : option Z;
  cacheRead : option Z;
  cacheWrite : option Z
}.

(** The [error] argument of [recordUsage]: an [Error] object with its
    message, a string, or anything else ([undefined] included). *)
Inductive ErrorArg : Type :=
  | ErrorObject (message : jsstring)
  | ErrorText (text : jsstring)
  | ErrorOther.

(** The characters a block and a message count for, when they can be read. *)
Definition blockChars (block : value) : Z :=
  match field "text" block with
  | VStr t => len t
  | _ => 0
  end.

Definition sumZ (l : list Z) : Z := foldr Z.add 0 l.

Definition maxZ (l : list Z) : Z := foldr Z.max 0 l.

Definition textChars (msg : value) : Z :=
  match field "content" msg with
  | VStr s => len s
  | VArr blocks => sumZ (blockChars <$> blocks)
  | _ => 0
  end.

(** A run of observations for several session keys, in call order. *)
Fixpoint observeMany (calls : list (jsstring * Z * Z))
    (loopTracker : gmap jsstring LoopEntry) : gmap jsstring LoopEntry :=
  match calls with
  | [] => loopTracker
  | (k, mc, tc) :: rest =>
      observeMany rest (checkAndUpdateLoopTracker k mc tc loopTracker).2
  end.

Section Wrapper.

(** The state a stream function works on and what it returns: both belong
    to the agent runtime, not to the logger. *)
Context {S R : Type}.

(** [safeJsonStringify] of [utils/safe-json.js]: the line of an event, or
    [null]. *)
Variable safeJsonStringify : UsageLogEvent -> option jsstring.

(** Everything a wrapped call can touch: the process-wide [loopTracker],
    the lines handed to the file writer and to the subsystem logger, the
    clock, the calls made to stream functions so far, and the state of the
    stream function itself. *)
Record World : Type := mkWorld {
  loopTracker : gmap jsstring LoopEntry;
  written : list jsstring;
  logged : list (LogLevel * jsstring);
  now : jsstring;
  invoked : list (value * value * value);
  callee : S
}.

(** A [StreamFn]: called with [(model, context, options)], it returns or
    throws, and changes its own state. *)
Definition StreamFn : Type := value -> value -> value -> S -> result R * S.

(** Code that runs in a [World] and may throw. *)
Definition Prog (A : Type) : Type := World -> result A * World.

Definition ret {A} (a : A) : Prog A := fun w => (Ok a, w).

Definition bind {A B} (m : Prog A) (f : A -> Prog B) : Prog B := fun w =>
  match m w with
  | (Ok a, w') => f a w'
  | (Throw e, w') => (Throw e, w')
  end.

Definition lift {A} (r : result A) : Prog A := fun w => (r, w).

Definition gets {A} (f : World -> A) : Prog A := fun w => (Ok (f w), w).

Definition modify (f : World -> World) : Prog unit := fun w => (Ok tt, f w).

Notation "'do' x <- m ; k" := (bind m (fun x => k))
  (at level 10, x name, m at level 100, k at level 200).
Notation "m ;; k" := (bind m (fun _ => k))
  (at level 100, k at level 200, right associativity).

(** Modelled from the spec: the queued file writer ([queued-file-writer.js]
    is not among the sources).  [write] enqueues the line for append to the
    log file, in call order, and never fails into its caller. *)
Definition writerWrite (line : jsstring) : Prog unit :=
  modify (fun w => mkWorld (loopTracker w) (written w ++ [line]) (logged w)
                     (now w) (invoked w) (callee w)).

(** Modelled from the spec: the subsystem logger ([logging/subsystem.js] is
    not among the sources) takes a diagnostic line and never fails. *)
Definition logLine (level : LogLevel) (text : jsstring) : Prog unit :=
  modify (fun w => mkWorld (loopTracker w) (written w) (logged w ++ [(level, text)])
                     (now w) (invoked w) (callee w)).

(** [record]: an event that does not serialize, or serializes to the
    empty string, is dropped. *)
Definition record (event : UsageLogEvent) : Prog unit :=
  match safeJsonStringify event with
  | Some line => if bool_decide (line = []) then ret tt else writerWrite (line ++ [10%N])
  | None => ret tt
  end.

(** The loop detector run against the tracker of the world. *)
Definition checkLoop (sessionLabel : jsstring) (mc tc : Z) : Prog (option jsstring) :=
  fun w =>
    let '(warning, tracker') := checkAndUpdateLoopTracker sessionLabel mc tc (loopTracker w) in
    (Ok warning, mkWorld tracker' (written w) (logged w) (now w) (invoked w) (callee w)).

(** A call of a stream function: it is noted in [invoked] and runs on the
    callee's state. *)
Definition invoke (streamFn : StreamFn) (model context options : value) : Prog R :=
  fun w =>
    let '(r, s') := streamFn model context options (callee w) in
    (r, mkWorld (loopTracker w) (written w) (logged w) (now w)
          (invoked w ++ [(model, context, options)]) s').

(** What the steps before the call leave alone. *)
Definition sameCallSide (w w' : World) : Prop :=
  callee w' = callee w /\ invoked w' = invoked w.

(** A string used as a condition: [undefined] and the empty string are
    falsy. *)
Definition truthyText (t : option jsstring) : bool :=
  match t with
  | Some s => negb (bool_decide (s = []))
  | None => false
  end.

(** An optional string inside a template literal. *)
Definition showOpt (t : option jsstring) : jsstring :=
  default (u16 "undefined") t.

(** [params.sessionKey ?? params.sessionId ?? "unknown"] *)
Definition sessionLabelOf (params : LoggerParams) : jsstring :=
  default (default (u16 "unknown") (sessionId params)) (sessionKey params).

(** The [messages] of a wrapped call: [ctx?.messages] when it is an
    array, the empty array otherwise. *)
Definition contextMessages (context : value) : list value :=
  let rawMessages := getPropOpt "messages" context in
  match rawMessages with
  | VArr items => items
  | _ => []
  end.

(** The function [wrapStreamFn(streamFn)] returns, for a logger created
    with [params]. *)
Definition wrapStreamFn (params : LoggerParams) (streamFn : StreamFn)
    (model context options : value) : Prog R :=
  let sessionLabel := sessionLabelOf params in
  let messages := contextMessages context in
  do a <- lift (analyzeMessages messages);
  let estimated := estimateTokens (totalTextChars a) in
  let messageCount := len messages in
  do warning <- checkLoop sessionLabel messageCount (totalTextChars a);
  do time <- gets now;
  let inputEvent :=
    mkUsageLogEvent params time
      (if truthyText warning then StageLoopBreak else StageInput)
      messageCount (totalTextChars a) (maxMessageTextChars a) estimated warning
      None None None None None in
  record inputEvent ;;
  (if truthyText warning
   then logLine LogWarn (u16 "[llm-usage] " ++ showOpt warning)
   else logLine LogDebug
          (u16 "[llm-usage] input session=" ++ sessionLabel
           ++ u16 " provider=" ++ showOpt (provider params) ++ u16 "/"
           ++ showOpt (modelId params)
           ++ u16 " messages=" ++ showNum messageCount
           ++ u16 " chars=" ++ showNum (totalTextChars a)
           ++ u16 " ~tokens=" ++ showNum estimated)) ;;
  invoke streamFn model context options.

(** A number used as a condition: [undefined] and 0 are falsy. *)
Definition truthyCount (n : option Z) : bool :=
  match n with
  | Some n => negb (n =? 0)
  | None => false
  end.

(** The lines [record] hands to the writer for an event. *)
Definition linesOf (event : UsageLogEvent) : list jsstring :=
  match safeJsonStringify event with
  | Some line => if bool_decide (line = []) then [] else [line ++ [10%N]]
  | None => []
  end.

(** [recordUsage(messages, usage, error)] of a logger created with
    [params].  The metadata object handed to [log.info] is not kept. *)
Definition recordUsage (params : LoggerParams) (messages : value)
    (usage : option UsageTotals) (error : ErrorArg) : Prog unit :=
  let items := match messages with VArr items => items | _ => [] end in
  do a <- lift (analyzeMessages items);
  let errorMessage :=
    match error with
    | ErrorObject message => Some message
    | ErrorText text => Some text
    | ErrorOther => None
    end in
  do time <- gets now;
  let event :=
    mkUsageLogEvent params time StageUsage
      (match messages with VArr items => len items | _ => 0 end)
      (totalTextChars a) (maxMessageTextChars a) (estimateTokens (totalTextChars a))
      None (usage ≫= input) (usage ≫= output) (usage ≫= cacheRead)
      (usage ≫= cacheWrite) errorMessage in
  record event ;;
  (if truthyCount (usage ≫= input) || truthyCount (usage ≫= output)
   then logLine LogInfo (u16 "[llm-usage] usage")
   else ret tt).

End Wrapper.

Arguments World : clear implicits.
Arguments StreamFn : clear implicits.

End Usage.

(** ** The message compactor *)

Module Compact.

Record Options : Type := mkOptions {
  maxMessages : option Z;
  maxMessageChars : option Z;
  maxToolResultChars : option Z
}.

(** [compactMessages(messages)] called without options. *)
Definition noOptions : Options := mkOptions None None None.

(** The marker: a line feed, U+2026, the bracketed text with U+2014 in it. *)
Definition TRUNC_SUFFIX : jsstring :=
  [10%N; 8230%N] ++ u16 "[truncated " ++ [8212%N]
  ++ u16 " content exceeded context budget]".

Definition truncateString (text : jsstring) (limit : Z) : jsstring :=
  if len text <=? limit then text
  else sliceTo (limit - len TRUNC_SUFFIX) text ++ TRUNC_SUFFIX.

(** The callback of [content.map] in [compactContent]. *)
Definition compactBlock (cap : Z) (block : value) : value :=
  if negb (truthy block) || negb (typeofObject block) then block
  else
    match field "text" block with
    | VStr text =>
        if len text <=? cap then block
        else spreadWith block "text" (VStr (truncateString text cap))
    | _ => block
    end.

Definition compactContent (maxMsgChars maxToolChars : Z) (content : value)
    (isToolResult : bool) : value :=
  match content with
  | VStr text =>
      let cap := if isToolResult then maxToolChars else maxMsgChars in
      VStr (truncateString text cap)
  | VArr blocks =>
      let cap := if isToolResult then maxToolChars else maxMsgChars in
      VArr (compactBlock cap <$> blocks)
  | _ => content
  end.

(** [newContent === content] for what [compactContent] returned on
    [content]: strings compare by their code units, [map] always builds a
    new array, and every other content is handed back as it is. *)
Definition sameContent (newContent content : value) : bool :=
  match content, newContent with
  | VStr s, VStr s' => bool_decide (s' = s)
  | VStr _, _ => false
  | VArr _, _ => false
  | _, _ => true
  end.

Definition isToolResultRole (role : value) : bool :=
  isString role (u16 "toolResult") || isString role (u16 "tool")
  || isString role (u16 "function").

(** The callback of the first [messages.map]. *)
Definition compactMessage (maxMsgChars maxToolChars : Z) (msg : value) : value :=
  if negb (truthy msg) || negb (typeofObject msg) then msg
  else
    let isToolResult := isToolResultRole (field "role" msg) in
    match field "content" msg with
    | VUndefined => msg
    | content =>
        let newContent := compactContent maxMsgChars maxToolChars content isToolResult in
        if sameContent newContent content then msg
        else spreadWith msg "content" newContent
    end.

(** The test of the [system] filter of the window step. *)
Definition isSystem (m : value) : bool :=
  truthy m && typeofObject m && isString (field "role" m) (u16 "system").

(** The test of the [nonSystem] filter of the window step. *)
Definition isNonSystem (m : value) : bool :=
  negb (truthy m) || negb (typeofObject m)
  || negb (isString (field "role" m) (u16 "system")).

(** [-Math.max(0, maxMessages - system.length)] handed to [slice]. *)
Definition tailStart (maxMessages systemCount : Z) : Z :=
  - Z.max 0 (maxMessages - systemCount).

(** Keep system messages + last N non-system messages within window. *)
Definition windowMessages (maxMessages : Z) (compacted : list value) : list value :=
  if (0 <? maxMessages) && (maxMessages <? len compacted) then
    let system := List.filter isSystem compacted in
    let nonSystem := List.filter isNonSystem compacted in
    let tail := sliceFrom (tailStart maxMessages (len system)) nonSystem in
    system ++ tail
  else compacted.

(** The key a system message is remembered under in [seen]. *)
Definition dedupeKey (m : value) : option jsstring :=
  match field "content" m with
  | VStr s => Some s
  | content => JSON_stringify content
  end.

(** The callback of the dedupe [filter], run with the set [seen] as it
    stands: its verdict, and [seen] after the call. *)
Definition dedupeTest (seen : gset (option jsstring)) (msg : value)
  : bool * gset (option jsstring) :=
  if negb (truthy msg) || negb (typeofObject msg) then (true, seen)
  else if negb (isString (field "role" msg) (u16 "system")) then (true, seen)
  else
    let key := dedupeKey msg in
    if bool_decide (key ∈ seen) then (false, seen)
    else (true, {[key]} ∪ seen).

(** The dedupe [filter]: the callback runs on the messages in order. *)
Fixpoint dedupeFrom (seen : gset (option jsstring)) (msgs : list value) : list value :=
  match msgs with
  | [] => []
  | msg :: rest =>
      let '(keep, seen') := dedupeTest seen msg in
      if keep then msg :: dedupeFrom seen' rest else dedupeFrom seen' rest
  end.

(** [seen] once the callback has run on [msgs]. *)
Fixpoint seenAfter (seen : gset (option jsstring)) (msgs : list value)
  : gset (option jsstring) :=
  match msgs with
  | [] => seen
  | msg :: rest => seenAfter (dedupeTest seen msg).2 rest
  end.

Definition compactMessages (messages : list value) (options : Options) : list value :=
  let maxMessages := default 60 (maxMessages options) in
  let maxMsgChars := default 20000 (maxMessageChars options) in
  let maxToolChars := default 8000 (maxToolResultChars options) in
  let compacted := compactMessage maxMsgChars maxToolChars <$> messages in
  let compacted := dedupeFrom ∅ compacted in
  windowMessages maxMessages compacted.

(** The keys of the system messages of a list, in order. *)
Definition systemKeys (msgs : list value) : list (option jsstring) :=
  dedupeKey <$> List.filter isSystem msgs.

(** The text the specification words for a truncation: the first
    [cap - marker length] characters, then the marker. *)
Definition cutWithMarker (cap : Z) (text : jsstring) : jsstring :=
  take (Z.to_nat (cap - len TRUNC_SUFFIX)) text ++ TRUNC_SUFFIX.

(** The last [k] elements of a list. *)
Definition lastN {A} (k : nat) (l : list A) : list A := drop (length l - k) l.

(** The cap that applies to a message: [maxToolResultChars] for a tool
    result, [maxMessageChars] otherwise. *)
Definition capOf (options : Options) (msg : value) : Z :=
  if isToolResultRole (field "role" msg)
  then default 8000 (maxToolResultChars options)
  else default 20000 (maxMessageChars options).

(** The messages left after truncation and deduplication. *)
Definition afterDedupe (messages : list value) (options : Options) : list value :=
  dedupeFrom ∅
    (compactMessage (default 20000 (maxMessageChars options))
       (default 8000 (maxToolResultChars options)) <$> messages).

(** A message whose texts are all within the cap of its role. *)
Definition withinCaps (options : Options) (msg : value) : bool :=
  match field "content" msg with
  | VStr text => len text <=? capOf options msg
  | VArr blocks =>
      forallb (fun block =>
                 match field "text" block with
                 | VStr text => len text <=? capOf options msg
                 | _ => true
                 end) blocks
  | _ => true
  end.

(** The window as the specification words it: every system message, then
    the most recent [max(0, maxMessages - systemCount)] other messages. *)
Definition windowAsSpecified (maxMessages : Z) (compacted : list value) : list value :=
  let system := List.filter isSystem compacted in
  let nonSystem := List.filter isNonSystem compacted in
  system ++ lastN (Z.to_nat (Z.max 0 (maxMessages - len system))) nonSystem.

End Compact.

(** ** The history turn limiter *)

Module History.

Section Limiter.

(** [AgentMessage] comes from the agent runtime; the limiter reads only
    its [role]. *)
Context {AgentMessage : Type}.
Variable role : AgentMessage -> jsstring.

(** [m.role === "user"] *)
Definition isUser (m : AgentMessage) : bool := bool_decide (role m = u16 "user").

(** The number of user messages of a list. *)
Definition countUsers (l : list AgentMessage) : Z := len (List.filter isUser l).

(** The backward [for] loop with [n] indices still to visit, [i = n - 1]
    the next one.  Reading [messages[i].role] past the end would throw. *)
Fixpoint scanBack (messages : list AgentMessage) (limit : Z) (n : nat)
    (userCount lastUserIndex : Z) : result (list AgentMessage) :=
  match n with
  | O => Ok messages
  | S i =>
      match messages !! i with
      | None => Throw TypeError
      | Some m =>
          if isUser m then
            let userCount := userCount + 1 in
            if limit <? userCount then Ok (sliceFrom lastUserIndex messages)
            else scanBack messages limit i userCount (Z.of_nat i)
          else scanBack messages limit i userCount lastUserIndex
      end
  end.

Definition limitHistoryTurns (messages : list AgentMessage) (limit : option Z)
  : result (list AgentMessage) :=
  match limit with
  | None => Ok messages
  | Some limit =>
      if (limit =? 0) || (limit <=? 0) || (len messages =? 0) then Ok messages
      else scanBack messages limit (length messages) 0 (len messages)
  end.

End Limiter.

(** *** String helpers of the session-key lookup *)

Fixpoint takeWhile {A} (p : A -> bool) (l : list A) : list A :=
  match l with
  | x :: rest => if p x then x :: takeWhile p rest else []
  | [] => []
  end.

Fixpoint dropWhile {A} (p : A -> bool) (l : list A) : list A :=
  match l with
  | x :: rest => if p x then dropWhile p rest else l
  | [] => []
  end.

Definition colon : N := 58%N.

(** [s.split(":")] *)
Fixpoint split (s : jsstring) : list jsstring :=
  match s with
  | [] => [[]]
  | c :: rest =>
      if (c =? colon)%N then [] :: split rest
      else
        match split rest with
        | part :: parts => (c :: part) :: parts
        | [] => [[c]]
        end
  end.

(** [parts.join(":")] *)
Fixpoint join (parts : list jsstring) : jsstring :=
  match parts with
  | [] => []
  | [part] => part
  | part :: rest => part ++ colon :: join rest
  end.

Definition nonEmpty (s : jsstring) : bool := negb (bool_decide (s = [])).

(** A segment of a session key: not empty, and without a colon. *)
Definition isSegment (s : jsstring) : bool :=
  nonEmpty s && forallb (fun c => negb (c =? colon)%N) s.

Definition isDigit (c : N) : bool := ((48 <=? c) && (c <=? 57))%N.

(** The characters [.] does not match. *)
Definition isLineTerminator (c : N) : bool :=
  bool_decide (c ∈ [10; 13; 8232; 8233]%N).

(** Case folding of [/i] on the letters of the pattern: an ASCII capital
    matches its small letter, no other character does. *)
Definition foldCase (c : N) : N :=
  if ((65 <=? c) && (c <=? 90))%N then (c + 32)%N else c.

(** A match of [THREAD_SUFFIX_REGEX], its group 1: any characters but line
    terminators (group 1), then a colon, [thread] or [topic] in any case, a
    colon, and decimal digits up to the end.  The digits are the characters
    after the last colon, the word the ones between the two last colons. *)
Definition matchThreadSuffix (value : jsstring) : option jsstring :=
  let r := reverse value in
  match takeWhile isDigit r, dropWhile isDigit r with
  | _ :: _, c :: r1 =>
      if (c =? colon)%N then
        let word := foldCase <$> reverse (takeWhile (fun c => negb (c =? colon)%N) r1) in
        match dropWhile (fun c => negb (c =? colon)%N) r1 with
        | _ :: r2 =>
            if (bool_decide (word = u16 "thread") || bool_decide (word = u16 "topic"))
               && forallb (fun c => negb (isLineTerminator c)) r2
            then Some (reverse r2)
            else None
        | [] => None
        end
      else None
  | _, _ => None
  end.

(** [match?.[1] ?? value] *)
Definition stripThreadSuffix (value : jsstring) : jsstring :=
  default value (matchThreadSuffix value).

(** White space as [trim] and [parseInt] skip it. *)
Definition isWhiteSpace (c : N) : bool :=
  bool_decide (c ∈ [9; 10; 11; 12; 13; 32; 160; 5760; 8232; 8233; 8239; 8287;
                    12288; 65279]%N)
  || ((8192 <=? c) && (c <=? 8202))%N.

Definition trim (s : jsstring) : jsstring :=
  reverse (dropWhile isWhiteSpace (reverse (dropWhile isWhiteSpace s))).

Definition digitsValue (digits : list N) : Z :=
  fold_left (fun acc d => acc * 10 + (Z.of_N d - 48)) digits 0.

(** Up to this integer a decimal numeral reads as the very number it
    writes. *)
Definition MAX_SAFE_INTEGER : Z := 2 ^ 53 - 1.

(** [Number.isFinite] on the value of a numeral: from [2^1024 - 2^970] on
    it reads as [Infinity]. *)
Definition isFiniteNumber (n : Z) : bool := Z.abs n <? 2 ^ 1024 - 2 ^ 970.

(** [Number.parseInt(s, 10)], [None] for [NaN]: leading white space, a
    sign, then the longest run of decimal digits.  The value is the integer
    the digits write; the rounding of a numeral beyond [MAX_SAFE_INTEGER]
    to the nearest double is left out. *)
Definition parseInt10 (s : jsstring) : option Z :=
  let s1 := dropWhile isWhiteSpace s in
  let '(sign, s2) :=
    match s1 with
    | c :: rest =>
        if (c =? 45)%N then (-1, rest)
        else if (c =? 43)%N then (1, rest)
        else (1, s1)
    | [] => (1, s1)
    end in
  match takeWhile isDigit s2 with
  | [] => None
  | digits => Some (sign * digitsValue digits)
  end.

(** *** The configured limit *)

Record DmConfig : Type := mkDmConfig {
  dm_historyLimit : option Z
}.

(** A provider entry of [channels]. *)
Record ProviderConfig : Type := mkProviderConfig {
  historyLimit : option Z;
  dmHistoryLimit : option Z;
  dms : option (gmap jsstring DmConfig)
}.

(** What [channels[providerId]] may hold: a plain object, or something the
    lookup rejects ([null], a primitive, an array). *)
Inductive ChannelEntry : Type :=
  | EntryObject (cfg : ProviderConfig)
  | EntryOther.

(** The part of [OpenClawConfig] the lookup reads. *)
Record OpenClawConfig : Type := mkOpenClawConfig {
  channels : option (gmap jsstring ChannelEntry)
}.

Section SessionKey.

(** [String.prototype.toLowerCase] *)
Variable toLowerCase : jsstring -> jsstring.

Definition resolveProviderConfig (cfg : option OpenClawConfig) (providerId : jsstring)
  : option ProviderConfig :=
  match cfg ≫= channels with
  | None => None
  | Some channels =>
      match channels !! providerId with
      | Some (EntryObject entry) => Some entry
      | _ => None
      end
  end.

(** [providerConfig.dms?.[userId]?.historyLimit] *)
Definition dmOverride (providerConfig : ProviderConfig) (userId : jsstring) : option Z :=
  match dms providerConfig with
  | Some table =>
      match table !! userId with
      | Some dm => dm_historyLimit dm
      | None => None
      end
  | None => None
  end.

Definition getHistoryLimitFromSessionKey (sessionKey : option jsstring)
    (config : option OpenClawConfig) : option Z :=
  match sessionKey, config with
  | Some sessionKey, Some _ =>
      if negb (nonEmpty sessionKey) then None
      else
        let parts := List.filter nonEmpty (split sessionKey) in
        let providerParts :=
          if (3 <=? len parts) && bool_decide (parts !! 0%nat = Some (u16 "agent"))
          then drop 2 parts else parts in
        match toLowerCase <$> providerParts !! 0%nat with
        | None => None
        | Some provider =>
            if negb (nonEmpty provider) then None
            else
              let kind := toLowerCase <$> providerParts !! 1%nat in
              let userIdRaw := join (drop 2 providerParts) in
              let userId := stripThreadSuffix userIdRaw in
              match resolveProviderConfig config provider with
              | None => None
              | Some providerConfig =>
                  if bool_decide (kind = Some (u16 "dm"))
                     || bool_decide (kind = Some (u16 "direct"))
                  then
                    match (if nonEmpty userId
                           then dmOverride providerConfig userId
                           else None) with
                    | Some limit => Some limit
                    | None => dmHistoryLimit providerConfig
                    end
                  else if bool_decide (kind = Some (u16 "channel"))
                          || bool_decide (kind = Some (u16 "group"))
                  then historyLimit providerConfig
                  else None
              end
        end
  | _, _ => None
  end.

(** [env] is the value of [process.env.LLM_MAX_HISTORY_TURNS]. *)
Definition resolveEffectiveHistoryLimit (env : option jsstring)
    (sessionKey : option jsstring) (config : option OpenClawConfig) : option Z :=
  let configLimit := getHistoryLimitFromSessionKey sessionKey config in
  let envRaw := trim <$> env in
  let envLimit :=
    match envRaw with
    | Some raw => if nonEmpty raw then parseInt10 raw else None
    | None => None
    end in
  match envLimit with
  | Some envLimit =>
      if negb (envLimit =? 0) && isFiniteNumber envLimit && (0 <? envLimit) then
        match configLimit with
        | Some configLimit => Some (Z.min configLimit envLimit)
        | None => Some envLimit
        end
      else configLimit
  | None => configLimit
  end.

End SessionKey.

End History.

(** ** Sample data *)

Module Examples.

Import Compact.

(** A message with a role and a string content. *)
Definition message (role text : string) : value :=
  VObj [("role", VStr (u16 role)); ("content", VStr (u16 text))].

(** 25,000 characters of text. *)
Definition longText : jsstring := replicate (Z.to_nat 25000) 97%N.

Definition longMessage : value :=
  VObj [("role", VStr (u16 "user")); ("content", VStr longText)].

Definition cap20000 : Options := mkOptions None (Some 20000) None.

(** A cap below the length of the marker. *)
Definition cap10 : Options := mkOptions None (Some 10) None.

Definition elevenChars : value := message "user" "12345678901".

(** A message of two text blocks of 30 characters each. *)
Definition twoBlocks : value :=
  VObj [("role", VStr (u16 "user"));
        ("content",
         VArr [VObj [("type", VStr (u16 "text")); ("text", VStr (replicate 30 97%N))];
               VObj [("type", VStr (u16 "text")); ("text", VStr (replicate 30 98%N))]])].

Definition cap50 : Options := mkOptions None (Some 50) None.

Definition window (n : Z) : Options := mkOptions (Some n) None None.

(** A history of which only the roles matter: ten user messages, each with
    the reply of the assistant. *)
Definition tenTurns : list jsstring :=
  concat (replicate 10 [u16 "user"; u16 "assistant"]).

(** The role of such a message is the message itself. *)
Definition roleOf (m : jsstring) : jsstring := m.

(** A configuration with one provider: channel limit 7, direct-message
    limit [dm], and an override of 99 for the user [u1]. *)
Definition telegram (dm : Z) : History.OpenClawConfig :=
  History.mkOpenClawConfig
    (Some {[ u16 "telegram" :=
               History.EntryObject
                 (History.mkProviderConfig (Some 7) (Some dm)
                    (Some {[ u16 "u1" := History.mkDmConfig (Some 99) ]})) ]}).

(** A world in which nothing has happened yet; the state of the callee is
    the number of calls it has served. *)
Definition quietWorld : Usage.World Z :=
  Usage.mkWorld ∅ [] [] (u16 "2026-01-01T00:00:00.000Z") [] 0.

(** A stream function that counts its calls. *)
Definition countingStream : Usage.StreamFn Z value :=
  fun _ _ _ calls => (Ok (VStr (u16 "stream")), calls + 1).

(** A serializer for the examples: the stage of the event as its line. *)
Definition eventLine (event : Usage.UsageLogEvent) : option jsstring :=
  Some (match Usage.stage event with
        | Usage.StageInput => u16 "input"
        | Usage.StageUsage => u16 "usage"
        | Usage.StageLoopBreak => u16 "loop_break"
        end).

Definition anonymous : Usage.LoggerParams :=
  Usage.mkLoggerParams None None None None None.

(** A context whose message list holds [null]. *)
Definition nullEntryContext : value := VObj [("messages", VArr [VNull])].

(** Lower-casing of the ASCII capitals, which is what [toLowerCase] does on
    the ASCII session keys of the examples. *)
Definition asciiLower (s : jsstring) : jsstring := History.foldCase <$> s.

End Examples.

(** * Properties *)

(** ** The message analyzer *)

Section AnalyzerFacts.

Import Usage.

Lemma forOf_app {A B} (body : A -> B -> result A) acc (l1 l2 : list B) :
  forOf body acc (l1 ++ l2) = (acc' ← forOf body acc l1; forOf body acc' l2).
Proof.
  revert acc. induction l1 as [|x l1 IH]; intros acc; simpl; [done|].
  destruct (body acc x) as [acc'|e]; simpl; [apply IH | done].
Qed.

(** The only failure of the analyzer is the [TypeError] of a property read. *)
Lemma getProp_throws k v e : getProp k v = Throw e -> e = TypeError.
Proof. destruct v; simpl; congruence. Qed.

Lemma countBlock_throws chars block e :
  countBlock chars block = Throw e -> e = TypeError.
Proof.
  unfold countBlock. destruct (getProp "text" block) as [t|e'] eqn:E; simpl.
  - destruct t; discriminate.
  - intros [= <-]. by eapply getProp_throws.
Qed.

Lemma forOf_throws {A B} (body : A -> B -> result A) (items : list B) :
  (forall acc x e, body acc x = Throw e -> e = TypeError) ->
  forall acc e, forOf body acc items = Throw e -> e = TypeError.
Proof.
  intros Hbody. induction items as [|x items IH]; intros acc e; simpl; [done|].
  destruct (body acc x) as [acc'|e'] eqn:E; simpl.
  - apply IH.
  - intros [= <-]. by eapply Hbody.
Qed.

Lemma countMessageChars_throws msg e :
  countMessageChars msg = Throw e -> e = TypeError.
Proof.
  unfold countMessageChars. destruct (getProp "content" msg) as [c|e'] eqn:E; simpl.
  - destruct c; try discriminate.
    apply forOf_throws, countBlock_throws.
  - intros [= <-]. by eapply getProp_throws.
Qed.

Lemma analyzeStep_throws acc msg e :
  analyzeStep acc msg = Throw e -> e = TypeError.
Proof.
  unfold analyzeStep. destruct (countMessageChars msg) as [c|e'] eqn:E; simpl.
  - discriminate.
  - intros [= <-]. by eapply countMessageChars_throws.
Qed.

Lemma analyzeMessages_throws messages e :
  analyzeMessages messages = Throw e -> e = TypeError.
Proof. apply forOf_throws, analyzeStep_throws. Qed.

Lemma countBlock_ok chars block :
  nullish block = false ->
  exists n, countBlock chars block = Ok n /\ chars <= n.
Proof.
  intros Hb. unfold countBlock.
  assert (getProp "text" block = Ok (field "text" block)) as ->
    by (destruct block; done).
  simpl. destruct (field "text" block); try (eexists; split; [done | lia]).
  eexists; split; [done |]. unfold len. lia.
Qed.

Lemma countBlock_nullish chars block :
  nullish block = true -> countBlock chars block = Throw TypeError.
Proof. by destruct block. Qed.

Lemma countBlocks_ok blocks : forall chars,
  existsb nullish blocks = false ->
  exists n, forOf countBlock chars blocks = Ok n /\ chars <= n.
Proof.
  induction blocks as [|b blocks IH]; intros chars Hb; simpl in *.
  - exists chars. split; [done | lia].
  - apply orb_false_iff in Hb as [Hb1 Hb2].
    destruct (countBlock_ok chars b Hb1) as (c & -> & Hc).
    simpl. destruct (IH c Hb2) as (n & -> & Hn). exists n. split; [done | lia].
Qed.

Lemma countBlocks_nullish blocks : forall chars,
  existsb nullish blocks = true -> forOf countBlock chars blocks = Throw TypeError.
Proof.
  induction blocks as [|b blocks IH]; intros chars Hb; simpl in *; [done|].
  destruct (nullish b) eqn:Eb.
  - by rewrite countBlock_nullish.
  - destruct (countBlock_ok chars b Eb) as (c & -> & _). simpl. by apply IH.
Qed.

Lemma countMessageChars_ok msg :
  unreadable msg = false -> exists n, countMessageChars msg = Ok n /\ 0 <= n.
Proof.
  unfold unreadable. intros [Hn Hc]%orb_false_iff.
  unfold countMessageChars.
  assert (getProp "content" msg = Ok (field "content" msg)) as ->
    by (destruct msg; done).
  simpl. destruct (field "content" msg); try (exists 0; split; [done | lia]).
  - eexists; split; [done |]. unfold len. lia.
  - by apply countBlocks_ok.
Qed.

Lemma countMessageChars_unreadable msg :
  unreadable msg = true -> countMessageChars msg = Throw TypeError.
Proof.
  unfold unreadable. destruct (nullish msg) eqn:En; simpl.
  - by destruct msg.
  - intros H. unfold countMessageChars.
    assert (getProp "content" msg = Ok (field "content" msg)) as ->
      by (destruct msg; done).
    simpl. destruct (field "content" msg); try discriminate.
    by apply countBlocks_nullish.
Qed.

(** Every entry that can be read is counted, and the analysis returns. *)
Lemma analyzeMessages_ok messages :
  forallb (fun m => negb (unreadable m)) messages = true ->
  exists a, analyzeMessages messages = Ok a.
Proof.
  unfold analyzeMessages. generalize (mkAnalysis 0 0).
  induction messages as [|m messages IH]; intros acc H; simpl in *.
  - by eexists.
  - apply andb_true_iff in H as [Hm H]. apply negb_true_iff in Hm.
    unfold analyzeStep. destruct (countMessageChars_ok _ Hm) as (n & -> & _).
    simpl. by apply IH.
Qed.

(** An entry without text counts for nothing in either measure. *)
Lemma analyzeStep_no_text acc msg :
  countMessageChars msg = Ok 0 -> 0 <= maxMessageTextChars acc ->
  analyzeStep acc msg = Ok acc.
Proof.
  intros E Hmax. unfold analyzeStep. rewrite E. simpl.
  destruct acc as [t m]; simpl in *. rewrite Z.add_0_r.
  by destruct (Z.ltb_spec m 0); [lia|].
Qed.

(** One unreadable entry is enough for the whole analysis to throw. *)
Lemma analyzeMessages_unreadable messages :
  existsb unreadable messages = true -> analyzeMessages messages = Throw TypeError.
Proof.
  unfold analyzeMessages. generalize (mkAnalysis 0 0).
  induction messages as [|m messages IH]; intros acc H; simpl in *; [done|].
  destruct (unreadable m) eqn:Em.
  - assert (analyzeStep acc m = Throw TypeError) as ->; [|done].
    unfold analyzeStep. by rewrite (countMessageChars_unreadable _ Em).
  - destruct (countMessageChars_ok _ Em) as (n & En & _).
    assert (exists acc', analyzeStep acc m = Ok acc') as [acc' ->]
      by (unfold analyzeStep; rewrite En; by eexists).
    by apply IH.
Qed.

(** C5 (the code departs from it): the analyzer is to return its two
    counts for every list, malformed entries included, and never throw.
    It throws the [TypeError] of the property read as soon as an entry is
    [null] or [undefined], or a block array holds one: whatever stands
    before and after that entry, no count is returned. *)
Theorem analyzeMessages_throws_on_nullish_entry :
  forall (before after : list value) (bad : value),
    unreadable bad = true ->
    analyzeMessages (before ++ bad :: after) = Throw TypeError.
Proof.
  intros before after bad Hbad. apply analyzeMessages_unreadable.
  rewrite existsb_app. simpl. rewrite Hbad. by rewrite orb_true_r.
Qed.

Lemma analyzeMessages_throws_on_nullish_entry_witness :
  analyzeMessages ([VNum 5] ++ VNull :: [VObj [("content", VStr (u16 "hello"))]])
  = Throw TypeError.
Proof. apply analyzeMessages_throws_on_nullish_entry. reflexivity. Defined.

End AnalyzerFacts.

(** ** The loop detector *)

Section LoopDetectorFacts.

Import Usage.

Implicit Types (k : jsstring) (t : gmap jsstring LoopEntry) (e : LoopEntry).

Lemma check_fresh k mc tc t :
  t !! k = None ->
  checkAndUpdateLoopTracker k mc tc t = (None, <[k := mkLoopEntry mc tc 1]> t).
Proof. intros H. unfold checkAndUpdateLoopTracker. by rewrite H. Qed.

Lemma check_changed k mc tc t e :
  t !! k = Some e -> messageCount e ≠ mc ∨ totalChars e ≠ tc ->
  checkAndUpdateLoopTracker k mc tc t = (None, <[k := mkLoopEntry mc tc 1]> t).
Proof.
  intros H Hne. unfold checkAndUpdateLoopTracker. rewrite H.
  destruct Hne as [Hne|Hne].
  - by rewrite (bool_decide_eq_false_2 _ Hne).
  - rewrite (bool_decide_eq_false_2 _ Hne). by rewrite andb_false_r.
Qed.

Lemma check_repeated k mc tc t e :
  t !! k = Some e -> messageCount e = mc -> totalChars e = tc ->
  checkAndUpdateLoopTracker k mc tc t
  = (if 3 <=? streak e + 1
     then Some (loopWarningText k mc tc (streak e + 1)) else None,
     <[k := mkLoopEntry mc tc (streak e + 1)]> t).
Proof.
  intros H Hmc Htc. unfold checkAndUpdateLoopTracker. rewrite H.
  rewrite !bool_decide_eq_true_2 by done. simpl.
  unfold LOOP_STREAK_THRESHOLD. subst mc tc.
  by destruct (3 <=? streak e + 1).
Qed.

(** The entries of the other sessions are left alone. *)
Lemma check_other_sessions k k' mc tc t :
  k ≠ k' -> (checkAndUpdateLoopTracker k mc tc t).2 !! k' = t !! k'.
Proof.
  intros Hne. unfold checkAndUpdateLoopTracker.
  destruct (t !! k) as [e|]; simpl.
  - destruct (_ && _); [destruct (_ <=? _)|]; simpl; by rewrite lookup_insert_ne.
  - by rewrite lookup_insert_ne.
Qed.

(** C3: an observation draws a warning exactly when it repeats the shape
    stored for its session key and the streak it brings about is at least
    3.  A repeat adds one to the stored streak; any other observation
    stores the new shape with streak 1 and draws no warning.  For a key
    not yet tracked, of four identical observations the first two draw no
    warning, the third and the fourth draw one, and a differing fifth
    draws none and leaves the streak at 1. *)
Theorem loop_warning_iff_repeat_reaches_threshold :
  forall k mc tc t,
    (is_Some (checkAndUpdateLoopTracker k mc tc t).1 <->
     exists e, t !! k = Some e /\ messageCount e = mc /\ totalChars e = tc
               /\ 3 <= streak e + 1)
    /\ (forall e, t !! k = Some e -> messageCount e = mc -> totalChars e = tc ->
        (checkAndUpdateLoopTracker k mc tc t).2 !! k
        = Some (mkLoopEntry mc tc (streak e + 1)))
    /\ (t !! k = None
        \/ (exists e, t !! k = Some e /\ (messageCount e ≠ mc \/ totalChars e ≠ tc)) ->
        (checkAndUpdateLoopTracker k mc tc t).1 = None
        /\ (checkAndUpdateLoopTracker k mc tc t).2 !! k = Some (mkLoopEntry mc tc 1))
    /\ (t !! k = None ->
        forall mc' tc', (mc', tc') ≠ (mc, tc) ->
        exists w3 w4 t',
          observeAll k [(mc, tc); (mc, tc); (mc, tc); (mc, tc); (mc', tc')] t
          = ([None; None; Some w3; Some w4; None], t')
          /\ t' !! k = Some (mkLoopEntry mc' tc' 1)).
Proof.
  intros k mc tc t. repeat split.
  - intros [w Hw]. destruct (t !! k) as [e|] eqn:E.
    + destruct (decide (messageCount e = mc)) as [Hmc|Hmc];
        [destruct (decide (totalChars e = tc)) as [Htc|Htc]|].
      * rewrite (check_repeated _ _ _ _ _ E Hmc Htc) in Hw. simpl in Hw.
        exists e. repeat split; try done.
        destruct (Z.leb_spec 3 (streak e + 1)); [done | discriminate].
      * rewrite (check_changed _ _ _ _ _ E (or_intror Htc)) in Hw. discriminate.
      * rewrite (check_changed _ _ _ _ _ E (or_introl Hmc)) in Hw. discriminate.
    + rewrite (check_fresh _ _ _ _ E) in Hw. discriminate.
  - intros (e & E & Hmc & Htc & Hs).
    rewrite (check_repeated _ _ _ _ _ E Hmc Htc). simpl.
    destruct (Z.leb_spec 3 (streak e + 1)); [by eexists | lia].
  - intros e E Hmc Htc. rewrite (check_repeated _ _ _ _ _ E Hmc Htc). simpl.
    by rewrite lookup_insert_eq.
  - destruct H as [E|(e & E & Hne)].
    + by rewrite (check_fresh _ _ _ _ E).
    + by rewrite (check_changed _ _ _ _ _ E Hne).
  - destruct H as [E|(e & E & Hne)].
    + rewrite (check_fresh _ _ _ _ E). simpl. by rewrite lookup_insert_eq.
    + rewrite (check_changed _ _ _ _ _ E Hne). simpl. by rewrite lookup_insert_eq.
  - intros E mc' tc' Hne.
    eexists _, _, _. cbn [observeAll].
    rewrite (check_fresh _ _ _ _ E).
    rewrite (check_repeated k mc tc _ (mkLoopEntry mc tc 1))
      by (done || apply lookup_insert_eq).
    rewrite (check_repeated k mc tc _ (mkLoopEntry mc tc (1 + 1)))
      by (done || apply lookup_insert_eq).
    rewrite (check_repeated k mc tc _ (mkLoopEntry mc tc (1 + 1 + 1)))
      by (done || apply lookup_insert_eq).
    rewrite (check_changed k mc' tc' _ (mkLoopEntry mc tc (1 + 1 + 1 + 1))).
    + simpl. split; [reflexivity|]. by rewrite lookup_insert_eq.
    + apply lookup_insert_eq.
    + simpl. destruct (decide (mc = mc')) as [->|]; [|by left].
      right. intros ->. by apply Hne.
Qed.

Lemma loop_warning_iff_repeat_reaches_threshold_witness :
  exists w3 w4 t',
    observeAll (u16 "s1") [(5, 1000); (5, 1000); (5, 1000); (5, 1000); (5, 1001)] ∅
    = ([None; None; Some w3; Some w4; None], t')
    /\ t' !! u16 "s1" = Some (mkLoopEntry 5 1001 1).
Proof.
  apply (loop_warning_iff_repeat_reaches_threshold (u16 "s1") 5 1000 ∅).
  - apply lookup_empty.
  - intros [= ?].
Defined.

End LoopDetectorFacts.

(** ** The wrapped stream function *)

Section WrapperFacts.

Import Usage.

Context {S R : Type}.
Variable safeJsonStringify : UsageLogEvent -> option jsstring.
Variable params : LoggerParams.
Variable streamFn : StreamFn S R.

#[local] Abbreviation wrapped := (wrapStreamFn safeJsonStringify params streamFn).

Lemma record_callSide event (w : World S) :
  exists w', record safeJsonStringify event w = (Ok tt, w') /\ sameCallSide w w'.
Proof.
  unfold record. destruct (safeJsonStringify event) as [line|].
  - case_bool_decide; eexists; split; try reflexivity; done.
  - eexists; split; try reflexivity; done.
Qed.

Lemma logLine_callSide level text (w : World S) :
  exists w', logLine level text w = (Ok tt, w') /\ sameCallSide w w'.
Proof. eexists; split; try reflexivity; done. Qed.

Lemma checkLoop_callSide label mc tc (w : World S) :
  exists warning w',
    checkLoop label mc tc w = (Ok warning, w') /\ sameCallSide w w'
    /\ warning = (checkAndUpdateLoopTracker label mc tc (loopTracker w)).1.
Proof.
  unfold checkLoop. destruct (checkAndUpdateLoopTracker _ _ _ _) as [warning t'].
  eexists _, _; split; [reflexivity|]. done.
Qed.

(** Whenever the analyzer returns on the messages of the call, the wrapped
    function makes exactly one call of [streamFn], with the arguments it
    was given, on the state the callee was in, and hands back what that
    call returned or threw; the stage of the event written before the call
    plays no part. *)
Lemma wrapStreamFn_forwards model context options w a :
  analyzeMessages (contextMessages context) = Ok a ->
  exists w',
    wrapped model context options w
    = ((streamFn model context options (callee w)).1, w')
    /\ callee w' = (streamFn model context options (callee w)).2
    /\ invoked w' = invoked w ++ [(model, context, options)].
Proof.
  intros Ha. unfold wrapStreamFn, bind, lift, gets. rewrite Ha.
  destruct (checkLoop_callSide (sessionLabelOf params)
              (len (contextMessages context)) (totalTextChars a) w)
    as (warning & w1 & -> & [Hc1 Hi1] & _).
  match goal with |- context [record _ ?ev w1] =>
    destruct (record_callSide ev w1) as (w2 & -> & [Hc2 Hi2]) end.
  assert (exists w3, (if truthyText warning
     then logLine LogWarn (u16 "[llm-usage] " ++ showOpt warning)
     else logLine LogDebug
          (u16 "[llm-usage] input session=" ++ sessionLabelOf params
           ++ u16 " provider=" ++ showOpt (provider params) ++ u16 "/"
           ++ showOpt (modelId params)
           ++ u16 " messages=" ++ showNum (len (contextMessages context))
           ++ u16 " chars=" ++ showNum (totalTextChars a)
           ++ u16 " ~tokens=" ++ showNum (estimateTokens (totalTextChars a)))) w2
     = (Ok tt, w3) /\ sameCallSide w2 w3) as (w3 & -> & [Hc3 Hi3]).
  { destruct (truthyText warning); apply logLine_callSide. }
  unfold invoke. rewrite Hc3, Hc2, Hc1, Hi3, Hi2, Hi1.
  destruct (streamFn model context options (callee w)) as [r s']. simpl.
  eexists. split; [reflexivity|]. done.
Qed.

(** What a wrapped call leaves behind when the analyzer returns: the
    tracker as the loop detector left it, and one more line in the log file
    when the event serializes, whose stage is [loop_break] exactly when the
    detector gave a warning. *)
Lemma wrapStreamFn_side_channel model context options w a :
  analyzeMessages (contextMessages context) = Ok a ->
  forall warning tracker',
    checkAndUpdateLoopTracker (sessionLabelOf params) (len (contextMessages context))
      (totalTextChars a) (loopTracker w) = (warning, tracker') ->
    loopTracker (wrapped model context options w).2 = tracker'
    /\ written (wrapped model context options w).2
       = written w
         ++ match safeJsonStringify
                    (mkUsageLogEvent params (now w)
                       (if truthyText warning then StageLoopBreak else StageInput)
                       (len (contextMessages context)) (totalTextChars a)
                       (maxMessageTextChars a) (estimateTokens (totalTextChars a))
                       warning None None None None None) with
            | Some line => if bool_decide (line = []) then [] else [line ++ [10%N]]
            | None => []
            end
    /\ length (logged (wrapped model context options w).2) = (length (logged w) + 1)%nat.
Proof.
  intros Ha warning tracker' Hloop.
  unfold wrapStreamFn, bind, lift, gets, checkLoop, record, invoke. rewrite Ha, Hloop.
  cbn [now loopTracker written logged invoked callee].
  destruct (safeJsonStringify _) as [line|]; [case_bool_decide|];
    destruct (truthyText warning);
    cbn; destruct (streamFn model context options (callee w)); cbn;
    rewrite ?app_nil_r, ?length_app; repeat split; simpl; lia.
Qed.

(** C1 (the code departs from it): the wrapped function is to call
    [streamFn] exactly once with the arguments it was given, for every
    argument triple.  When the messages of the context hold an entry the
    analyzer cannot read, the wrapped function throws the analyzer's
    [TypeError] instead: nothing is written, the tracker is not touched,
    and [streamFn] is never called. *)
Theorem wrapStreamFn_unreadable_entry_skips_call :
  forall (model context options : value) (w : World S),
    existsb unreadable (contextMessages context) = true ->
    wrapped model context options w = (Throw TypeError, w).
Proof.
  intros model context options w H.
  unfold wrapStreamFn, bind, lift.
  by rewrite (analyzeMessages_unreadable _ H).
Qed.

End WrapperFacts.

Lemma wrapStreamFn_unreadable_entry_skips_call_witness :
  Usage.wrapStreamFn Examples.eventLine Examples.anonymous Examples.countingStream
    (VStr (u16 "model")) Examples.nullEntryContext VUndefined Examples.quietWorld
  = (Throw TypeError, Examples.quietWorld).
Proof.
  apply (wrapStreamFn_unreadable_entry_skips_call Examples.eventLine).
  reflexivity.
Defined.

(** On a context whose messages can all be read, the same wrapped function
    makes its one call. *)
Example wrapStreamFn_forwards_once :
  let context := VObj [("messages", VArr [Examples.message "user" "hello"])] in
  let run := Usage.wrapStreamFn Examples.eventLine Examples.anonymous
               Examples.countingStream (VStr (u16 "model")) context VUndefined
               Examples.quietWorld in
  run.1 = Ok (VStr (u16 "stream"))
  /\ Usage.callee run.2 = 1
  /\ Usage.invoked run.2 = [(VStr (u16 "model"), context, VUndefined)]
  /\ length (Usage.written run.2) = 1%nat.
Proof. by vm_compute. Qed.

(** ** The compactor: truncation *)

Section TruncationFacts.

Import Compact.

Lemma TRUNC_SUFFIX_length : len TRUNC_SUFFIX = 47.
Proof. reflexivity. Qed.

Lemma truncateString_short text limit :
  len text <= limit -> truncateString text limit = text.
Proof.
  intros H. unfold truncateString. by destruct (Z.leb_spec (len text) limit); [|lia].
Qed.

Lemma truncateString_long text limit :
  47 <= limit -> limit < len text ->
  truncateString text limit
  = take (Z.to_nat (limit - len TRUNC_SUFFIX)) text ++ TRUNC_SUFFIX.
Proof.
  intros Hcap Hlong. unfold truncateString, sliceTo.
  destruct (Z.leb_spec (len text) limit); [lia|].
  rewrite TRUNC_SUFFIX_length.
  destruct (Z.ltb_spec (limit - 47) 0); [lia|].
  by rewrite Z.min_l by lia.
Qed.

Lemma truncateString_long_length text limit :
  47 <= limit -> limit < len text -> len (truncateString text limit) = limit.
Proof.
  intros Hcap Hlong. rewrite truncateString_long by done.
  rewrite TRUNC_SUFFIX_length. unfold len in *.
  rewrite length_app, length_take.
  change (length TRUNC_SUFFIX) with 47%nat. lia.
Qed.

Lemma truncateString_bounded text limit :
  47 <= limit -> len (truncateString text limit) <= limit.
Proof.
  intros Hcap. destruct (Z.le_gt_cases (len text) limit).
  - by rewrite truncateString_short.
  - rewrite truncateString_long_length by lia. lia.
Qed.

Lemma truncateString_idem text limit :
  47 <= limit ->
  truncateString (truncateString text limit) limit = truncateString text limit.
Proof. intros Hcap. by apply truncateString_short, truncateString_bounded. Qed.

(** Reading back a property written by a spread. *)
Lemma lookupProp_setProp_eq k v props : lookupProp k (setProp k v props) = v.
Proof.
  induction props as [|[k' v'] props IH]; simpl.
  - by rewrite String.eqb_refl.
  - destruct (String.eqb k k') eqn:E; simpl; by rewrite E.
Qed.

Lemma lookupProp_setProp_ne k k' v props :
  k ≠ k' -> lookupProp k' (setProp k v props) = lookupProp k' props.
Proof.
  intros Hne. induction props as [|[k0 v0] props IH]; simpl.
  - destruct (String.eqb_spec k' k); [congruence | done].
  - destruct (String.eqb_spec k k0) as [->|]; simpl.
    + destruct (String.eqb_spec k' k0); [congruence | done].
    + by rewrite IH.
Qed.

Lemma setProp_setProp k v v' props :
  setProp k v' (setProp k v props) = setProp k v' props.
Proof.
  induction props as [|[k0 v0] props IH]; simpl.
  - by rewrite String.eqb_refl.
  - destruct (String.eqb k k0) eqn:E; simpl; rewrite E; [done | by rewrite IH].
Qed.

Lemma setProp_lookup k props :
  lookupProp k props ≠ VUndefined -> setProp k (lookupProp k props) props = props.
Proof.
  induction props as [|[k0 v0] props IH]; simpl; [done|].
  destruct (String.eqb_spec k k0) as [->|]; [done|].
  intros H. by rewrite IH.
Qed.

Lemma undefined_or_not (v : value) : v = VUndefined \/ v ≠ VUndefined.
Proof. destruct v; (by left) || by right. Qed.

(** A message with a content is an object. *)
Lemma field_defined_object k v :
  field k v ≠ VUndefined -> exists props, v = VObj props.
Proof. destruct v; simpl; try done. by eexists. Qed.

(** What [compactMessage] returns, whichever way [===] goes. *)
Lemma compactMessage_content mc tc msg :
  field "content" msg ≠ VUndefined ->
  compactMessage mc tc msg
  = spreadWith msg "content"
      (compactContent mc tc (field "content" msg) (isToolResultRole (field "role" msg))).
Proof.
  intros Hc. destruct (field_defined_object _ _ Hc) as [props ->].
  unfold compactMessage. simpl in *.
  destruct (lookupProp "content" props) as [| | | |s|items|ps] eqn:E; try done; simpl;
    try (by rewrite <- E, setProp_lookup by (rewrite E; done)).
  case_bool_decide as Hs; [|done].
  rewrite Hs, <- E. by rewrite setProp_lookup by (rewrite E; done).
Qed.

Lemma compactMessage_no_content mc tc msg :
  field "content" msg = VUndefined -> compactMessage mc tc msg = msg.
Proof.
  intros Hc. unfold compactMessage. rewrite Hc. by destruct (_ || _).
Qed.

Lemma field_spreadWith_eq msg k v : field k (spreadWith msg k v) = v.
Proof.
  destruct msg; simpl; try (by rewrite String.eqb_refl).
  apply lookupProp_setProp_eq.
Qed.

Lemma field_spreadWith_ne props k k' v :
  k ≠ k' -> field k' (spreadWith (VObj props) k v) = field k' (VObj props).
Proof. intros Hne. simpl. by apply lookupProp_setProp_ne. Qed.

Lemma compactBlock_long cap block text :
  field "text" block = VStr text -> cap < len text ->
  compactBlock cap block = spreadWith block "text" (VStr (truncateString text cap)).
Proof.
  intros Ht Hlong. unfold compactBlock. rewrite Ht.
  destruct block; try discriminate. simpl.
  by destruct (Z.leb_spec (len text) cap); [lia|].
Qed.

End TruncationFacts.

(** ** The compactor: deduplication *)

Section DedupeFacts.

Import Compact.

Implicit Types (seen : gset (option jsstring)) (l : list value).

Lemma isNonSystem_negb m : isNonSystem m = negb (isSystem m).
Proof.
  unfold isNonSystem, isSystem.
  by destruct (truthy m), (typeofObject m), (isString _ _).
Qed.

Lemma dedupeTest_other seen m : isSystem m = false -> dedupeTest seen m = (true, seen).
Proof.
  unfold isSystem, dedupeTest.
  by destruct (truthy m), (typeofObject m), (isString _ _).
Qed.

Lemma dedupeTest_system seen m :
  isSystem m = true ->
  dedupeTest seen m
  = if bool_decide (dedupeKey m ∈ seen) then (false, seen)
    else (true, {[dedupeKey m]} ∪ seen).
Proof.
  unfold isSystem, dedupeTest.
  by destruct (truthy m), (typeofObject m), (isString _ _).
Qed.


Lemma dedupeTest_seen seen m k :
  k ∈ (dedupeTest seen m).2 <-> k ∈ seen \/ (isSystem m = true /\ dedupeKey m = k).
Proof.
  destruct (isSystem m) eqn:E.
  - rewrite dedupeTest_system by done. case_bool_decide; simpl; set_solver.
  - rewrite dedupeTest_other by done. simpl. naive_solver.
Qed.


Lemma dedupeFrom_elem seen l x : x ∈ dedupeFrom seen l -> x ∈ l.
Proof.
  revert seen. induction l as [|m l IH]; intros seen; simpl; [done|].
  destruct (dedupeTest seen m) as [[] seen']; simpl.
  - intros [->|H]%elem_of_cons; [left | right; eauto].
  - intros H. right. eauto.
Qed.

(** [seen] holds the keys of the system messages met so far. *)
Lemma seenAfter_spec seen l k :
  k ∈ seenAfter seen l
  <-> k ∈ seen \/ exists m, m ∈ l /\ isSystem m = true /\ dedupeKey m = k.
Proof.
  revert seen. induction l as [|m l IH]; intros seen; simpl.
  - split; [by left|]. intros [H|(m & Hm & _)]; [done|]. by apply elem_of_nil in Hm.
  - rewrite IH, dedupeTest_seen. split.
    + intros [[H|[Hs Hk]]|(m' & Hm' & Hs & Hk)].
      * by left.
      * right. exists m. split; [left | done].
      * right. exists m'. split; [by right | done].
    + intros [H|(m' & [->|Hm']%elem_of_cons & Hs & Hk)].
      * left. by left.
      * left. by right.
      * right. by exists m'.
Qed.


Lemma filter_none {A} (p : A -> bool) (l : list A) :
  Forall (fun x => p x = false) l -> List.filter p l = [].
Proof. induction 1 as [|x l Hx _ IH]; simpl; [done|]. by rewrite Hx. Qed.

Lemma filter_all {A} (p : A -> bool) (l : list A) :
  Forall (fun x => p x = true) l -> List.filter p l = l.
Proof. induction 1 as [|x l Hx _ IH]; simpl; [done|]. by rewrite Hx, IH. Qed.

Lemma filter_Forall {A} (p : A -> bool) (l : list A) :
  Forall (fun x => p x = true) (List.filter p l).
Proof.
  induction l as [|x l IH]; simpl; [constructor|].
  destruct (p x) eqn:E; [by constructor | done].
Qed.

(** A list whose system keys are distinct and new to [seen] passes the
    filter whole. *)
Lemma dedupeFrom_fixed seen l :
  NoDup (systemKeys l) -> (forall k, k ∈ systemKeys l -> k ∉ seen) ->
  dedupeFrom seen l = l.
Proof.
  revert seen. unfold systemKeys.
  induction l as [|m l IH]; intros seen Hnd Hnew; simpl in *; [done|].
  destruct (isSystem m) eqn:E; simpl in *.
  - rewrite dedupeTest_system by done.
    apply NoDup_cons in Hnd as [Hm Hnd].
    rewrite bool_decide_eq_false_2 by (apply Hnew; left).
    f_equal. apply IH; [done|].
    intros k Hk [->%elem_of_singleton|Hin]%elem_of_union; [done|].
    by apply (Hnew k); [right|].
  - rewrite dedupeTest_other by done. f_equal. by apply IH.
Qed.

(** What the filter keeps has distinct system keys, all new to [seen]. *)
Lemma dedupeFrom_keys seen l :
  NoDup (systemKeys (dedupeFrom seen l))
  /\ forall k, k ∈ systemKeys (dedupeFrom seen l) -> k ∉ seen.
Proof.
  revert seen. unfold systemKeys.
  induction l as [|m l IH]; intros seen; simpl.
  - split; [constructor|]. intros k Hk. by apply elem_of_nil in Hk.
  - destruct (isSystem m) eqn:E.
    + rewrite dedupeTest_system by done. case_bool_decide as Hin; [apply IH|].
      simpl. rewrite E. simpl.
      destruct (IH ({[dedupeKey m]} ∪ seen)) as [Hnd Hnew]. split.
      * apply NoDup_cons. split; [|done]. intros Hk. apply (Hnew _ Hk). set_solver.
      * intros k [->|Hk]%elem_of_cons; [done|].
        intros Hs. apply (Hnew _ Hk). set_solver.
    + rewrite dedupeTest_other by done. simpl. rewrite E. apply IH.
Qed.

End DedupeFacts.

(** ** The compactor: the window *)

Section WindowFacts.

Import Compact.

Implicit Types (l : list value).

Lemma sliceFrom_zero {A} (l : list A) : sliceFrom 0 l = l.
Proof. unfold sliceFrom. simpl. by rewrite Z.min_l by lia. Qed.

Lemma sliceFrom_negative {A} (k : Z) (l : list A) :
  0 < k -> sliceFrom (- k) l = lastN (Z.to_nat k) l.
Proof.
  intros Hk. unfold sliceFrom, lastN.
  destruct (Z.ltb_spec (- k) 0); [|lia]. f_equal. lia.
Qed.

Lemma lastN_length {A} (k : nat) (l : list A) :
  length (lastN k l) = Nat.min k (length l).
Proof. unfold lastN. rewrite length_drop. lia. Qed.

Lemma lastN_all {A} (k : nat) (l : list A) :
  (length l <= k)%nat -> lastN k l = l.
Proof. intros H. unfold lastN. by replace (length l - k)%nat with 0%nat by lia. Qed.

Lemma sliceFrom_elem {A} (s : Z) (l : list A) x : x ∈ sliceFrom s l -> x ∈ l.
Proof. unfold sliceFrom. intros H. eapply elem_of_sublist; [done | apply sublist_drop]. Qed.

Lemma sliceFrom_Forall {A} (P : A -> Prop) (s : Z) (l : list A) :
  Forall P l -> Forall P (sliceFrom s l).
Proof. unfold sliceFrom. apply Forall_drop. Qed.

(** Slicing a tail slice again with the same start changes nothing. *)
Lemma sliceFrom_twice {A} (s : Z) (l : list A) :
  s <= 0 -> sliceFrom s (sliceFrom s l) = sliceFrom s l.
Proof.
  intros Hs. destruct (decide (s = 0)) as [->|Hne].
  - by rewrite !sliceFrom_zero.
  - replace s with (- (- s)) by lia. rewrite !sliceFrom_negative by lia.
    apply lastN_all. rewrite lastN_length. lia.
Qed.

Lemma nonSystem_Forall l :
  Forall (fun m => isSystem m = false) (List.filter isNonSystem l).
Proof.
  eapply Forall_impl; [apply filter_Forall|].
  intros m Hm. simpl in Hm. rewrite isNonSystem_negb in Hm. by destruct (isSystem m).
Qed.

Lemma system_Forall l :
  Forall (fun m => isNonSystem m = false) (List.filter isSystem l).
Proof.
  eapply Forall_impl; [apply filter_Forall|].
  intros m Hm. simpl in Hm. rewrite isNonSystem_negb. by rewrite Hm.
Qed.

Lemma nonSystem_all l :
  Forall (fun m => isNonSystem m = true) (List.filter isNonSystem l).
Proof. apply filter_Forall. Qed.

Lemma filter_length_split l :
  (length (List.filter isSystem l) + length (List.filter isNonSystem l) = length l)%nat.
Proof.
  induction l as [|m l IH]; simpl; [done|].
  rewrite isNonSystem_negb. destruct (isSystem m); simpl; lia.
Qed.

(** The window when it applies. *)
Lemma windowMessages_trim n l :
  0 < n -> n < len l ->
  windowMessages n l
  = List.filter isSystem l
    ++ sliceFrom (tailStart n (len (List.filter isSystem l))) (List.filter isNonSystem l).
Proof.
  intros Hn Hl. unfold windowMessages.
  destruct (Z.ltb_spec 0 n); [|lia]. by destruct (Z.ltb_spec n (len l)); [|lia].
Qed.

(** The window when it does not apply. *)
Lemma windowMessages_keep n l :
  n <= 0 \/ len l <= n -> windowMessages n l = l.
Proof.
  intros H. unfold windowMessages.
  destruct (Z.ltb_spec 0 n); [|done]. by destruct (Z.ltb_spec n (len l)); [lia|].
Qed.

Lemma windowMessages_elem n l x : x ∈ windowMessages n l -> x ∈ l.
Proof.
  unfold windowMessages. destruct (_ && _); [|done].
  intros [H|H]%elem_of_app.
  - apply list_elem_of_In, filter_In in H as [H _]. by apply list_elem_of_In.
  - apply sliceFrom_elem in H.
    apply list_elem_of_In, filter_In in H as [H _]. by apply list_elem_of_In.
Qed.

(** The window leaves the system messages as they are. *)
Lemma windowMessages_system n l :
  List.filter isSystem (windowMessages n l) = List.filter isSystem l.
Proof.
  unfold windowMessages. destruct (_ && _); [|done].
  rewrite List.filter_app, (filter_all isSystem) by apply filter_Forall.
  rewrite (filter_none isSystem (sliceFrom _ _))
    by apply sliceFrom_Forall, nonSystem_Forall.
  by rewrite app_nil_r.
Qed.

Lemma windowMessages_nonSystem n l :
  0 < n -> n < len l ->
  List.filter isNonSystem (windowMessages n l)
  = sliceFrom (tailStart n (len (List.filter isSystem l))) (List.filter isNonSystem l).
Proof.
  intros Hn Hl. rewrite windowMessages_trim by done.
  rewrite List.filter_app, (filter_none isNonSystem (List.filter isSystem l))
    by apply system_Forall.
  simpl. apply filter_all, sliceFrom_Forall, nonSystem_all.
Qed.

(** A second pass of the window changes nothing. *)
Lemma windowMessages_idem n l :
  windowMessages n (windowMessages n l) = windowMessages n l.
Proof.
  destruct (decide (0 < n /\ n < len l)) as [[Hn Hl]|Hno].
  2: { rewrite (windowMessages_keep n l) by lia. apply windowMessages_keep. lia. }
  destruct (decide (n < len (windowMessages n l))) as [Hl'|Hl'].
  2: { apply windowMessages_keep. lia. }
  rewrite (windowMessages_trim n (windowMessages n l)) by done.
  rewrite windowMessages_system, windowMessages_nonSystem by done.
  rewrite sliceFrom_twice by (unfold tailStart; lia).
  by rewrite <- windowMessages_trim.
Qed.

(** When fewer than [maxMessages] system messages are left, the window is
    the one the specification words. *)
Lemma windowMessages_as_specified n l :
  0 < n -> n < len l -> len (List.filter isSystem l) < n ->
  windowMessages n l = windowAsSpecified n l
  /\ len (windowMessages n l) = n.
Proof.
  intros Hn Hl Hsys. rewrite windowMessages_trim by done.
  unfold windowAsSpecified, tailStart.
  rewrite sliceFrom_negative by lia. split; [done|].
  unfold len in *. rewrite length_app, lastN_length.
  pose proof (filter_length_split l). lia.
Qed.

End WindowFacts.

(** ** The compactor: what a second pass finds *)

Section IdempotenceFacts.

Import Compact.

Variables mc tc : Z.
Hypothesis mc_fits : 47 <= mc.
Hypothesis tc_fits : 47 <= tc.

Lemma compactBlock_short cap block :
  (forall text, field "text" block = VStr text -> len text <= cap) ->
  compactBlock cap block = block.
Proof.
  intros H. unfold compactBlock. destruct (_ || _); [done|].
  destruct (field "text" block) as [| | | |text| |] eqn:Et; try done.
  by destruct (Z.leb_spec (len text) cap); [|specialize (H text eq_refl); lia].
Qed.

Lemma compactBlock_idem cap block :
  47 <= cap -> compactBlock cap (compactBlock cap block) = compactBlock cap block.
Proof.
  intros Hcap.
  destruct (field "text" block) as [| | | |text| |] eqn:Et;
    try (rewrite (compactBlock_short cap block) by (intros ? ?; congruence);
         apply compactBlock_short; intros ? ?; congruence).
  destruct (Z.le_gt_cases (len text) cap) as [Hle|Hgt].
  { rewrite (compactBlock_short cap block) by (intros ? ?; congruence).
    apply compactBlock_short. intros ? ?; congruence. }
  rewrite (compactBlock_long cap block text) by (done || lia).
  apply compactBlock_short. intros text'. rewrite field_spreadWith_eq.
  intros [= <-]. by apply truncateString_bounded.
Qed.

Lemma compactContent_idem content tool :
  compactContent mc tc (compactContent mc tc content tool) tool
  = compactContent mc tc content tool.
Proof.
  assert (47 <= (if tool then tc else mc)) as Hcap by (by destruct tool).
  destruct content; simpl; try done.
  - by rewrite truncateString_idem.
  - f_equal. rewrite <- list_fmap_compose. apply list_fmap_ext.
    intros i b _. simpl. by apply compactBlock_idem.
Qed.

Lemma compactContent_defined content tool :
  content ≠ VUndefined -> compactContent mc tc content tool ≠ VUndefined.
Proof. by destruct content. Qed.

Lemma compactMessage_idem msg :
  compactMessage mc tc (compactMessage mc tc msg) = compactMessage mc tc msg.
Proof.
  destruct (undefined_or_not (field "content" msg)) as [Hc|Hc].
  { rewrite (compactMessage_no_content mc tc msg Hc).
    by apply compactMessage_no_content. }
  rewrite (compactMessage_content mc tc msg Hc).
  destruct (field_defined_object _ _ Hc) as [props ->].
  set (tool := isToolResultRole (field "role" (VObj props))).
  set (nc := compactContent mc tc (field "content" (VObj props)) tool).
  assert (nc ≠ VUndefined) as Hnc by by apply compactContent_defined.
  rewrite compactMessage_content by by rewrite field_spreadWith_eq.
  rewrite field_spreadWith_eq, field_spreadWith_ne by done.
  fold tool. subst nc. rewrite compactContent_idem. simpl.
  by rewrite setProp_setProp.
Qed.

Lemma compactMessage_fixed_list (msgs : list value) :
  Forall (fun m => exists m0, m = compactMessage mc tc m0) msgs ->
  compactMessage mc tc <$> msgs = msgs.
Proof.
  induction 1 as [|m msgs [m0 ->] _ IH]; [done|].
  by rewrite fmap_cons, compactMessage_idem, IH.
Qed.

End IdempotenceFacts.

Section CompactMessagesFacts.

Import Compact.

(** Every message handed back is the truncation of an input message. *)
Lemma compactMessages_elem messages options out :
  out ∈ compactMessages messages options ->
  exists m, m ∈ messages
    /\ out = compactMessage (default 20000 (maxMessageChars options))
               (default 8000 (maxToolResultChars options)) m.
Proof.
  unfold compactMessages.
  intros H%windowMessages_elem%dedupeFrom_elem%list_elem_of_fmap.
  destruct H as (m & -> & Hm). by exists m.
Qed.

Lemma compactMessages_single msg options :
  compactMessages [msg] options
  = [compactMessage (default 20000 (maxMessageChars options))
       (default 8000 (maxToolResultChars options)) msg].
Proof.
  unfold compactMessages. rewrite list_fmap_singleton.
  set (m' := compactMessage _ _ msg).
  assert (dedupeFrom ∅ [m'] = [m']) as ->.
  { simpl. destruct (isSystem m') eqn:E.
    - rewrite dedupeTest_system by done.
      by rewrite bool_decide_eq_false_2 by set_solver.
    - by rewrite dedupeTest_other. }
  apply windowMessages_keep. unfold len. simpl. lia.
Qed.

End CompactMessagesFacts.

(** ** The compactor: the claims *)

Section CompactorClaims.

Import Compact.

(** C8 (amended): for a string content, or a text block, that is longer
    than the cap of its message ([maxToolResultChars] for a tool result,
    [maxMessageChars] otherwise), and a cap of at least the 47 characters
    of the marker, [compactMessages] puts in its place a text of exactly
    [cap] characters: the first [cap - 47] characters of the original,
    then the marker.  The cap is applied to each string content and to
    each text block on its own; every message handed back is an input
    message so truncated. *)
Theorem truncation_keeps_prefix_and_marker :
  forall (options : Options) (msg : value) (text : jsstring),
    47 <= capOf options msg -> capOf options msg < len text ->
    len (cutWithMarker (capOf options msg) text) = capOf options msg
    /\ (field "content" msg = VStr text ->
        compactMessages [msg] options
        = [spreadWith msg "content" (VStr (cutWithMarker (capOf options msg) text))])
    /\ (forall blocks i block,
          field "content" msg = VArr blocks -> blocks !! i = Some block ->
          field "text" block = VStr text ->
          exists blocks',
            compactMessages [msg] options = [spreadWith msg "content" (VArr blocks')]
            /\ length blocks' = length blocks
            /\ blocks' !! i
               = Some (spreadWith block "text"
                         (VStr (cutWithMarker (capOf options msg) text))))
    /\ (forall messages out,
          out ∈ compactMessages messages options ->
          exists m, m ∈ messages /\ compactMessages [m] options = [out]).
Proof.
  intros options msg text Hcap Hlong.
  assert (truncateString text (capOf options msg)
          = cutWithMarker (capOf options msg) text) as Hcut
    by by apply truncateString_long.
  split; [|split; [|split]].
  - rewrite <- Hcut. by apply truncateString_long_length.
  - intros Hc. rewrite compactMessages_single.
    rewrite compactMessage_content by (rewrite Hc; done).
    rewrite Hc. simpl. do 3 f_equal. rewrite <- Hcut. unfold capOf.
    by destruct (isToolResultRole (field "role" msg)).
  - intros blocks i block Hc Hi Ht. rewrite compactMessages_single.
    rewrite compactMessage_content by (rewrite Hc; done).
    rewrite Hc. simpl. eexists. split; [reflexivity|].
    split; [by rewrite length_fmap|].
    rewrite list_lookup_fmap, Hi. simpl. f_equal.
    rewrite <- Hcut. unfold capOf in *.
    destruct (isToolResultRole (field "role" msg)); by apply compactBlock_long.
  - intros messages out (m & Hm & ->)%compactMessages_elem.
    exists m. split; [done|]. apply compactMessages_single.
Qed.

Lemma truncation_keeps_prefix_and_marker_witness :
  len (cutWithMarker 20000 Examples.longText) = 20000
  /\ compactMessages [Examples.longMessage] Examples.cap20000
     = [VObj [("role", VStr (u16 "user"));
              ("content",
               VStr (take (Z.to_nat 19953) Examples.longText ++ TRUNC_SUFFIX))]].
Proof.
  destruct (truncation_keeps_prefix_and_marker
              Examples.cap20000 Examples.longMessage Examples.longText)
    as (Hlen & Hmsg & _).
  - by vm_compute.
  - by vm_compute.
  - split; [exact Hlen | exact (Hmsg eq_refl)].
Defined.

(** C8 as it stands fails twice.  With a cap of 10, below the length of
    the marker, an 11-character text becomes the 47 characters of the
    marker alone.  With a cap of 50, a message of two 30-character blocks
    has 60 characters of text and is left as it is. *)
Lemma truncation_to_cap_fails :
  (Usage.countMessageChars Examples.elevenChars = Ok 11
   /\ capOf Examples.cap10 Examples.elevenChars = 10
   /\ Usage.countMessageChars <$> compactMessages [Examples.elevenChars] Examples.cap10
      = [Ok 47])
  /\ (Usage.countMessageChars Examples.twoBlocks = Ok 60
      /\ capOf Examples.cap50 Examples.twoBlocks = 50
      /\ compactMessages [Examples.twoBlocks] Examples.cap50 = [Examples.twoBlocks]).
Proof. by vm_compute. Qed.

End CompactorClaims.

Section DedupeClaim.

Import Compact.



End DedupeClaim.

Section WindowClaim.

Import Compact.

(** C4 (amended): when [maxMessages] is positive, more than [maxMessages]
    messages are left after truncation and deduplication, and fewer than
    [maxMessages] of them are system messages, [compactMessages] hands
    back every system message, then the most recent
    [maxMessages - systemCount] of the other messages, each group in the
    order it had: [maxMessages] messages in all. *)
Theorem window_keeps_system_and_recent_tail :
  forall (messages : list value) (options : Options),
    0 < default 60 (maxMessages options) ->
    default 60 (maxMessages options) < len (afterDedupe messages options) ->
    len (List.filter isSystem (afterDedupe messages options))
    < default 60 (maxMessages options) ->
    compactMessages messages options
    = List.filter isSystem (afterDedupe messages options)
      ++ lastN (Z.to_nat (default 60 (maxMessages options)
                          - len (List.filter isSystem (afterDedupe messages options))))
           (List.filter isNonSystem (afterDedupe messages options))
    /\ len (compactMessages messages options) = default 60 (maxMessages options).
Proof.
  intros messages options Hn Hl Hsys.
  change (compactMessages messages options)
    with (windowMessages (default 60 (maxMessages options))
            (afterDedupe messages options)).
  destruct (windowMessages_as_specified _ _ Hn Hl Hsys) as [Heq Hlen].
  split; [|exact Hlen].
  rewrite Heq. unfold windowAsSpecified. do 3 f_equal. lia.
Qed.

Lemma window_keeps_system_and_recent_tail_witness :
  compactMessages
    [Examples.message "system" "a"; Examples.message "user" "b";
     Examples.message "assistant" "c"; Examples.message "user" "d"]
    (Examples.window 3)
  = [Examples.message "system" "a"; Examples.message "assistant" "c";
     Examples.message "user" "d"].
Proof.
  refine (eq_trans (proj1 (window_keeps_system_and_recent_tail
    [Examples.message "system" "a"; Examples.message "user" "b";
     Examples.message "assistant" "c"; Examples.message "user" "d"]
    (Examples.window 3) _ _ _)) _); by vm_compute.
Defined.

(** C4 as it stands fails twice.  With [maxMessages] 0 the window is
    switched off and the one message left is handed back, where the claim
    keeps no message.  With [maxMessages] 1 and two system messages, the
    tail is [slice(-0)], the whole of the other messages, where the claim
    keeps none of them. *)
Lemma window_as_specified_fails :
  (0 < len (afterDedupe [Examples.message "user" "x"] (Examples.window 0))
   /\ compactMessages [Examples.message "user" "x"] (Examples.window 0)
      = [Examples.message "user" "x"]
   /\ windowAsSpecified 0 (afterDedupe [Examples.message "user" "x"] (Examples.window 0))
      = [])
  /\ (1 < len (afterDedupe [Examples.message "system" "a"; Examples.message "system" "b";
                           Examples.message "user" "x"] (Examples.window 1))
      /\ compactMessages [Examples.message "system" "a"; Examples.message "system" "b";
                          Examples.message "user" "x"] (Examples.window 1)
         = [Examples.message "system" "a"; Examples.message "system" "b";
            Examples.message "user" "x"]
      /\ windowAsSpecified 1
           (afterDedupe [Examples.message "system" "a"; Examples.message "system" "b";
                         Examples.message "user" "x"] (Examples.window 1))
         = [Examples.message "system" "a"; Examples.message "system" "b"]).
Proof. by vm_compute. Qed.

End WindowClaim.

Section IdempotenceClaim.

Import Compact.

(** C2 (amended): when both caps are at least the 47 characters of the
    marker, a second pass of [compactMessages] with the same options hands
    back its input: no text is cut again, no system message is dropped,
    the window trims nothing more. *)
Theorem compactMessages_idempotent_when_marker_fits :
  forall (messages : list value) (options : Options),
    47 <= default 20000 (maxMessageChars options) ->
    47 <= default 8000 (maxToolResultChars options) ->
    compactMessages (compactMessages messages options) options
    = compactMessages messages options.
Proof.
  intros messages options Hmc Htc.
  unfold compactMessages at 1.
  set (n := default 60 (maxMessages options)).
  set (mc := default 20000 (maxMessageChars options)) in *.
  set (tc := default 8000 (maxToolResultChars options)) in *.
  rewrite (compactMessage_fixed_list mc tc Hmc Htc).
  2: { apply Forall_forall. intros out Hout.
       apply compactMessages_elem in Hout as (m & _ & ->). by exists m. }
  assert (compactMessages messages options
          = windowMessages n (afterDedupe messages options)) as -> by done.
  rewrite dedupeFrom_fixed.
  - apply windowMessages_idem.
  - unfold systemKeys. rewrite windowMessages_system. apply dedupeFrom_keys.
  - intros k _. set_solver.
Qed.

Lemma compactMessages_idempotent_when_marker_fits_witness :
  compactMessages (compactMessages [Examples.longMessage] Examples.cap20000)
    Examples.cap20000
  = compactMessages [Examples.longMessage] Examples.cap20000.
Proof.
  apply compactMessages_idempotent_when_marker_fits; by vm_compute.
Defined.

(** C2 as it stands fails: with a cap of 10 the first pass turns an
    11-character text into the 47 characters of the marker, and the second
    pass turns those into 57. *)
Lemma compactMessages_second_pass_differs :
  compactMessages (compactMessages [Examples.elevenChars] Examples.cap10) Examples.cap10
  ≠ compactMessages [Examples.elevenChars] Examples.cap10.
Proof.
  intros H. apply (f_equal (fmap Usage.countMessageChars)) in H.
  vm_compute in H. discriminate H.
Qed.

End IdempotenceClaim.

(** ** The history turn limiter *)

Section LimiterFacts.

Import History.

Context {AgentMessage : Type}.
Variable role : AgentMessage -> jsstring.

#[local] Abbreviation isUser := (History.isUser role).
#[local] Abbreviation countUsers := (History.countUsers role).
#[local] Abbreviation scanBack := (History.scanBack role).
#[local] Abbreviation limitHistoryTurns := (History.limitHistoryTurns role).

Implicit Types (messages l : list AgentMessage) (m : AgentMessage).

Lemma countUsers_cons m l :
  countUsers (m :: l) = (if isUser m then 1 else 0) + countUsers l.
Proof.
  unfold History.countUsers, len. simpl. destruct (History.isUser role m); simpl; lia.
Qed.

Lemma countUsers_nonneg l : 0 <= countUsers l.
Proof. unfold History.countUsers, len. lia. Qed.

Lemma countUsers_drop i l : countUsers (drop i l) <= countUsers l.
Proof.
  revert i. induction l as [|m l IH]; intros [|i]; simpl; try lia.
  rewrite countUsers_cons. specialize (IH i). destruct (isUser m); lia.
Qed.

Lemma sliceFrom_index (i : nat) l :
  (i <= length l)%nat -> sliceFrom (Z.of_nat i) l = drop i l.
Proof.
  intros Hi. unfold sliceFrom. destruct (Z.ltb_spec (Z.of_nat i) 0); [lia|].
  f_equal. lia.
Qed.

(** What the loop computes.  Entering with [n] indices to visit, [uc]
    user messages counted among those already visited, none beyond the
    limit, and [lui] the index of the earliest of them, the loop returns
    the whole list when it holds no more than [limit] user messages, and
    otherwise the suffix that starts at a user message and holds [limit]
    of them. *)
Lemma scanBack_spec messages limit : 1 <= limit ->
  forall (n : nat) (uc lui : Z),
    (n <= length messages)%nat ->
    uc = countUsers (drop n messages) -> uc <= limit ->
    (0 < uc -> exists i m, lui = Z.of_nat i /\ messages !! i = Some m
                           /\ isUser m = true /\ countUsers (drop i messages) = uc) ->
    (countUsers messages <= limit /\ scanBack messages limit n uc lui = Ok messages)
    \/ (limit < countUsers messages
        /\ exists i m, scanBack messages limit n uc lui = Ok (drop i messages)
                       /\ messages !! i = Some m /\ isUser m = true
                       /\ countUsers (drop i messages) = limit).
Proof.
  intros Hlimit. induction n as [|i IH]; intros uc lui Hn Huc Hle Hlast.
  - left. rewrite drop_0 in Huc. split; [lia | done].
  - destruct (lookup_lt_is_Some_2 messages i) as [m Hm]; [lia|].
    cbn [History.scanBack]. rewrite Hm.
    assert (drop i messages = m :: drop (S i) messages) as Hdrop
      by by apply drop_S.
    assert (countUsers (drop i messages) = (if isUser m then 1 else 0) + uc) as Hcount
      by by rewrite Hdrop, countUsers_cons, Huc.
    destruct (isUser m) eqn:Em.
    + destruct (Z.ltb_spec limit (uc + 1)) as [Hover|Hin].
      * right. destruct Hlast as (j & mj & -> & Hj & Huj & Hcj); [lia|].
        split.
        { pose proof (countUsers_drop i messages). lia. }
        exists j, mj. rewrite sliceFrom_index.
        -- repeat split; try done. lia.
        -- apply lookup_lt_Some in Hj. lia.
      * apply IH; try lia.
        intros _. exists i, m. repeat split; try done. lia.
    + apply IH; try lia. done.
Qed.

Lemma limitHistoryTurns_positive messages limit :
  0 < limit -> messages ≠ [] ->
  limitHistoryTurns messages (Some limit)
  = scanBack messages limit (length messages) 0 (len messages).
Proof.
  intros Hl Hm. unfold History.limitHistoryTurns.
  destruct (Z.eqb_spec limit 0); [lia|]. destruct (Z.leb_spec limit 0); [lia|].
  destruct (Z.eqb_spec (len messages) 0) as [H0|]; [|done].
  destruct messages; [done | discriminate H0].
Qed.

Lemma limitHistoryTurns_spec messages limit :
  0 < limit ->
  (countUsers messages <= limit /\ limitHistoryTurns messages (Some limit) = Ok messages)
  \/ (limit < countUsers messages
      /\ exists i m, limitHistoryTurns messages (Some limit) = Ok (drop i messages)
                     /\ messages !! i = Some m /\ isUser m = true
                     /\ countUsers (drop i messages) = limit).
Proof.
  intros Hl. destruct messages as [|m0 messages'] eqn:E.
  { left. split; [unfold History.countUsers, len; simpl; lia|].
    unfold History.limitHistoryTurns. simpl.
    by destruct (limit =? 0), (limit <=? 0). }
  rewrite <- E. rewrite limitHistoryTurns_positive by (done || by subst).
  apply scanBack_spec; rewrite ?drop_all; try done; try lia.
Qed.

Lemma limitHistoryTurns_unlimited messages (limit : option Z) :
  limit = None \/ (exists n : Z, limit = Some n /\ n <= 0) \/ messages = [] ->
  limitHistoryTurns messages limit = Ok messages.
Proof.
  unfold History.limitHistoryTurns. intros [->|[(n & -> & Hn)| ->]]; [done| |].
  - destruct (Z.eqb_spec n 0); [done|]. by destruct (Z.leb_spec n 0); [|lia].
  - destruct limit as [n|]; [|done]. simpl. by rewrite !orb_true_r.
Qed.

End LimiterFacts.

Section LimiterClaims.

Import History.

Context {AgentMessage : Type}.
Variable role : AgentMessage -> jsstring.

(** C6 (amended): [limitHistoryTurns] returns its input unchanged when the
    limit is absent, zero or negative, or the list is empty.  Otherwise,
    when the list holds more than [limit] user messages, it returns the
    suffix that begins at the [limit]-th most recent user message: the
    suffix starts at a user message and holds exactly [limit] of them.
    In every case with a positive limit the result holds at most [limit]
    user messages. *)
Theorem limitHistoryTurns_keeps_last_turns :
  forall (messages : list AgentMessage) (limit : option Z),
    (limit = None \/ (exists n : Z, limit = Some n /\ n <= 0) \/ messages = [] ->
     limitHistoryTurns role messages limit = Ok messages)
    /\ (forall n : Z, limit = Some n -> 0 < n ->
        (n < countUsers role messages ->
         exists i m,
           limitHistoryTurns role messages limit = Ok (drop i messages)
           /\ messages !! i = Some m /\ isUser role m = true
           /\ countUsers role (drop i messages) = n)
        /\ (exists kept,
              limitHistoryTurns role messages limit = Ok kept
              /\ countUsers role kept <= n)).
Proof.
  intros messages limit. split; [apply limitHistoryTurns_unlimited|].
  intros n -> Hn.
  destruct (limitHistoryTurns_spec role messages n Hn)
    as [[Hle Hr]|(Hlt & i & m & Hr & Hm & Hu & Hc)].
  - split; [lia|]. by exists messages.
  - split; [by exists i, m|]. exists (drop i messages). split; [done | lia].
Qed.

(** C10: whatever the list and the limit, the limiter returns a tail
    slice of its input, the list itself or [messages.slice(k)]: the
    messages kept are the last ones of the input, in their order, none
    changed, none left out in between. *)
Theorem limitHistoryTurns_is_tail_slice :
  forall (messages : list AgentMessage) (limit : option Z),
    exists k : nat,
      (k <= length messages)%nat
      /\ limitHistoryTurns role messages limit = Ok (drop k messages).
Proof.
  intros messages [n|].
  2: { exists 0%nat. split; [lia | done]. }
  destruct (Z.le_gt_cases n 0) as [Hn|Hn].
  { exists 0%nat. split; [lia|]. rewrite drop_0.
    apply limitHistoryTurns_unlimited. right. left. by exists n. }
  destruct (limitHistoryTurns_spec role messages n) as [[_ Hr]|(_ & i & m & Hr & Hm & _)];
    [lia| |].
  - exists 0%nat. split; [lia | by rewrite drop_0].
  - exists i. split; [|done]. apply lookup_lt_Some in Hm. lia.
Qed.

End LimiterClaims.

Lemma limitHistoryTurns_keeps_last_turns_witness :
  exists i m,
    History.limitHistoryTurns Examples.roleOf Examples.tenTurns (Some 3)
    = Ok (drop i Examples.tenTurns)
    /\ Examples.tenTurns !! i = Some m /\ History.isUser Examples.roleOf m = true
    /\ History.countUsers Examples.roleOf (drop i Examples.tenTurns) = 3.
Proof.
  apply (limitHistoryTurns_keeps_last_turns Examples.roleOf Examples.tenTurns (Some 3));
    by vm_compute.
Defined.

(** C6 as it stands fails on a negative limit: the list holds more user
    messages than the limit, and is returned whole. *)
Lemma limitHistoryTurns_negative_limit :
  History.limitHistoryTurns Examples.roleOf [u16 "user"] (Some (-1)) = Ok [u16 "user"]
  /\ History.countUsers Examples.roleOf [u16 "user"] = 1.
Proof. by vm_compute. Qed.

Lemma limitHistoryTurns_is_tail_slice_witness :
  exists k : nat,
    (k <= length Examples.tenTurns)%nat
    /\ History.limitHistoryTurns Examples.roleOf Examples.tenTurns (Some 3)
       = Ok (drop k Examples.tenTurns).
Proof. apply limitHistoryTurns_is_tail_slice. Defined.

(** Ten user messages with their replies and a limit of 3: the result
    starts at the eighth user message and runs to the end. *)
Example limitHistoryTurns_ten_turns :
  History.limitHistoryTurns Examples.roleOf Examples.tenTurns (Some 3)
  = Ok (drop 14 Examples.tenTurns).
Proof. by vm_compute. Qed.

(** ** The effective history limit *)

Section CeilingFacts.

Import History.

Lemma isDigit_not_space c : isDigit c = true -> isWhiteSpace c = false.
Proof.
  unfold isDigit, isWhiteSpace. intros [H1 H2]%andb_true_iff.
  apply N.leb_le in H1, H2. apply orb_false_intro.
  - apply bool_decide_eq_false. rewrite !elem_of_cons, elem_of_nil. lia.
  - apply andb_false_iff. left. apply N.leb_gt. lia.
Qed.

Lemma takeWhile_all {A} (p : A -> bool) (l : list A) :
  Forall (fun x => p x = true) l -> takeWhile p l = l.
Proof. induction 1 as [|x l Hx _ IH]; simpl; [done|]. by rewrite Hx, IH. Qed.

Lemma dropWhile_head {A} (p : A -> bool) (x : A) (l : list A) :
  p x = false -> dropWhile p (x :: l) = x :: l.
Proof. intros H. simpl. by rewrite H. Qed.

(** A decimal numeral reads as its value, and [trim] leaves it alone. *)
Lemma numeral_read digits :
  digits ≠ [] -> Forall (fun c => isDigit c = true) digits ->
  trim digits = digits /\ parseInt10 digits = Some (digitsValue digits).
Proof.
  intros Hne Hd. split.
  - unfold trim. destruct digits as [|c rest]; [done|].
    rewrite dropWhile_head by (apply isDigit_not_space; by inversion Hd).
    assert (Forall (fun c => isDigit c = true) (reverse (c :: rest))) as Hr
      by by apply Forall_reverse.
    destruct (reverse (c :: rest)) as [|d rest'] eqn:E.
    { apply (f_equal length) in E. rewrite length_reverse in E. discriminate E. }
    rewrite dropWhile_head by (apply isDigit_not_space; by inversion Hr).
    by rewrite <- E, reverse_involutive.
  - unfold parseInt10. destruct digits as [|c rest]; [done|].
    assert (isDigit c = true) as Hc by by inversion Hd.
    rewrite dropWhile_head by by apply isDigit_not_space.
    unfold isDigit in Hc. apply andb_true_iff in Hc as [H1 H2].
    apply N.leb_le in H1, H2.
    destruct (N.eqb_spec c 45); [lia|]. destruct (N.eqb_spec c 43); [lia|].
    rewrite takeWhile_all by done. f_equal. lia.
Qed.

Lemma parseInt10_nonEmpty s n : parseInt10 s = Some n -> nonEmpty s = true.
Proof. by destruct s. Qed.

Variable toLowerCase : jsstring -> jsstring.

#[local] Abbreviation configured := (getHistoryLimitFromSessionKey toLowerCase).
#[local] Abbreviation effective := (resolveEffectiveHistoryLimit toLowerCase).

Lemma resolve_without_ceiling sessionKey config :
  effective None sessionKey config = configured sessionKey config.
Proof. done. Qed.

Lemma safe_isFinite n : 0 < n <= MAX_SAFE_INTEGER -> isFiniteNumber n = true.
Proof.
  intros [Hpos Hsafe]. unfold isFiniteNumber. apply Z.ltb_lt.
  rewrite Z.abs_eq by lia. eapply Z.le_lt_trans; [exact Hsafe|]. by vm_compute.
Qed.

Lemma resolve_with_ceiling raw ceiling sessionKey config :
  parseInt10 (trim raw) = Some ceiling -> 0 < ceiling <= MAX_SAFE_INTEGER ->
  effective (Some raw) sessionKey config
  = Some (match configured sessionKey config with
          | Some limit => Z.min limit ceiling
          | None => ceiling
          end).
Proof.
  intros Hp Hc. unfold resolveEffectiveHistoryLimit. simpl.
  rewrite (parseInt10_nonEmpty _ _ Hp), Hp, (safe_isFinite _ Hc).
  destruct (Z.eqb_spec ceiling 0); [lia|]. destruct (Z.ltb_spec 0 ceiling); [|lia].
  simpl. by destruct (getHistoryLimitFromSessionKey _ _ _).
Qed.

Lemma resolve_never_raises env sessionKey config result limit :
  effective env sessionKey config = Some result ->
  configured sessionKey config = Some limit ->
  result <= limit.
Proof.
  unfold resolveEffectiveHistoryLimit. intros Hr Hc. rewrite Hc in Hr.
  destruct (match trim <$> env with
            | Some raw => if nonEmpty raw then parseInt10 raw else None
            | None => None
            end) as [e|].
  - destruct (negb (e =? 0) && isFiniteNumber e && (0 <? e)); injection Hr as <-; lia.
  - injection Hr as <-. lia.
Qed.

(** C7: without a global ceiling the configured limit of the session is
    returned as it is.  With a positive ceiling in the environment the
    result is the smaller of the configured limit and the ceiling, and the
    ceiling itself when no limit is configured.  So the result is never
    above a configured limit: 50 under a ceiling of 30 gives 30, 20 under
    a ceiling of 30 gives 20. *)
Theorem ceiling_only_lowers_configured_limit :
  forall (sessionKey : option jsstring) (config : option OpenClawConfig),
    effective None sessionKey config = configured sessionKey config
    /\ (forall raw ceiling,
          parseInt10 (trim raw) = Some ceiling -> 0 < ceiling <= MAX_SAFE_INTEGER ->
          effective (Some raw) sessionKey config
          = Some (match configured sessionKey config with
                  | Some limit => Z.min limit ceiling
                  | None => ceiling
                  end))
    /\ (forall digits,
          digits ≠ [] -> Forall (fun c => isDigit c = true) digits ->
          0 < digitsValue digits <= MAX_SAFE_INTEGER ->
          effective (Some digits) sessionKey config
          = Some (match configured sessionKey config with
                  | Some limit => Z.min limit (digitsValue digits)
                  | None => digitsValue digits
                  end))
    /\ (forall env result limit,
          effective env sessionKey config = Some result ->
          configured sessionKey config = Some limit ->
          result <= limit)
    /\ (getHistoryLimitFromSessionKey Examples.asciiLower
          (Some (u16 "agent:main:telegram:dm:u2")) (Some (Examples.telegram 50)) = Some 50
        /\ resolveEffectiveHistoryLimit Examples.asciiLower (Some (u16 "30"))
             (Some (u16 "agent:main:telegram:dm:u2")) (Some (Examples.telegram 50))
           = Some 30)
    /\ (getHistoryLimitFromSessionKey Examples.asciiLower
          (Some (u16 "agent:main:telegram:dm:u2")) (Some (Examples.telegram 20)) = Some 20
        /\ resolveEffectiveHistoryLimit Examples.asciiLower (Some (u16 "30"))
             (Some (u16 "agent:main:telegram:dm:u2")) (Some (Examples.telegram 20))
           = Some 20).
Proof.
  intros sessionKey config. repeat apply conj.
  - apply resolve_without_ceiling.
  - intros raw ceiling. apply resolve_with_ceiling.
  - intros digits Hne Hd Hpos.
    destruct (numeral_read digits Hne Hd) as [Ht Hp].
    apply resolve_with_ceiling; [by rewrite Ht | done].
  - intros env result limit. apply resolve_never_raises.
  - by vm_compute.
  - by vm_compute.
  - by vm_compute.
  - by vm_compute.
Qed.

End CeilingFacts.

Lemma ceiling_only_lowers_configured_limit_witness :
  History.resolveEffectiveHistoryLimit Examples.asciiLower (Some (u16 " 30 "))
    (Some (u16 "telegram:group:room:topic:12")) (Some (Examples.telegram 50))
  = Some 7.
Proof.
  refine (eq_trans (proj1 (proj2 (ceiling_only_lowers_configured_limit Examples.asciiLower
    (Some (u16 "telegram:group:room:topic:12")) (Some (Examples.telegram 50))))
    (u16 " 30 ") 30 _ _) _); by vm_compute.
Defined.

(** * Further properties *)

(** ** Token estimate and message sizes *)

Section SizeFacts.

Import Usage.

(** X1: the estimate is the number of 4-character tokens that cover the
    text: it never falls short of [chars / 4], it is the least count that
    does not, and it grows with the text. *)
Theorem estimateTokens_least_cover :
  forall chars : Z,
    chars <= 4 * estimateTokens chars
    /\ (forall t : Z, chars <= 4 * t -> estimateTokens chars <= t)
    /\ (forall more : Z, chars <= more -> estimateTokens chars <= estimateTokens more).
Proof.
  intros chars. unfold estimateTokens. repeat split.
  - pose proof (Z.div_mod (chars + 3) 4 ltac:(lia)).
    pose proof (Z.mod_pos_bound (chars + 3) 4 ltac:(lia)). lia.
  - intros t Ht.
    assert ((chars + 3) / 4 < t + 1); [|lia].
    apply Z.div_lt_upper_bound; lia.
  - intros more Hm. apply Z.div_le_mono; lia.
Qed.

Lemma sumZ_app l1 l2 : sumZ (l1 ++ l2) = sumZ l1 + sumZ l2.
Proof. unfold sumZ. induction l1 as [|x l1 IH]; simpl; lia. Qed.

Lemma blockChars_nonneg block : 0 <= blockChars block.
Proof. unfold blockChars, len. destruct (field "text" block); lia. Qed.

Lemma sumZ_nonneg l : Forall (fun x => 0 <= x) l -> 0 <= sumZ l.
Proof. induction 1; simpl; lia. Qed.

Lemma textChars_nonneg msg : 0 <= textChars msg.
Proof.
  unfold textChars. destruct (field "content" msg); try lia.
  - unfold len. lia.
  - apply sumZ_nonneg, Forall_fmap, Forall_forall. intros b _. apply blockChars_nonneg.
Qed.

Lemma countBlock_chars chars block :
  nullish block = false -> countBlock chars block = Ok (chars + blockChars block).
Proof.
  intros Hb. unfold countBlock, blockChars.
  assert (getProp "text" block = Ok (field "text" block)) as ->
    by (destruct block; done).
  simpl. destruct (field "text" block); simpl; try (f_equal; lia); done.
Qed.

Lemma countBlocks_chars blocks : forall chars,
  existsb nullish blocks = false ->
  forOf countBlock chars blocks = Ok (chars + sumZ (blockChars <$> blocks)).
Proof.
  induction blocks as [|b blocks IH]; intros chars Hb.
  - simpl. f_equal. lia.
  - simpl in Hb. apply orb_false_iff in Hb as [Hb1 Hb2].
    cbn [forOf]. rewrite (countBlock_chars _ _ Hb1).
    change (forOf countBlock (chars + blockChars b) blocks
            = Ok (chars + (blockChars b + sumZ (blockChars <$> blocks)))).
    rewrite IH by done. f_equal. lia.
Qed.

(** On an entry it can read, [countMessageChars] returns [textChars]. *)
Lemma countMessageChars_chars msg :
  unreadable msg = false -> countMessageChars msg = Ok (textChars msg).
Proof.
  unfold unreadable. intros [Hn Hc]%orb_false_iff.
  unfold countMessageChars, textChars.
  assert (getProp "content" msg = Ok (field "content" msg)) as ->
    by (destruct msg; done).
  simpl. destruct (field "content" msg); try done.
  by rewrite countBlocks_chars.
Qed.

Lemma analyze_from acc messages :
  existsb unreadable messages = false -> 0 <= maxMessageTextChars acc ->
  forOf analyzeStep acc messages
  = Ok (mkAnalysis (totalTextChars acc + sumZ (textChars <$> messages))
          (Z.max (maxMessageTextChars acc) (maxZ (textChars <$> messages)))).
Proof.
  revert acc. induction messages as [|m messages IH]; intros acc Hr Hmax.
  - destruct acc as [t mx]. simpl in *. f_equal. f_equal; lia.
  - simpl in Hr. apply orb_false_iff in Hr as [Hm Hr].
    cbn [forOf].
    assert (analyzeStep acc m
            = Ok (mkAnalysis (totalTextChars acc + textChars m)
                    (Z.max (maxMessageTextChars acc) (textChars m)))) as ->.
    { unfold analyzeStep. rewrite (countMessageChars_chars _ Hm). simpl. do 2 f_equal.
      destruct (Z.ltb_spec (maxMessageTextChars acc) (textChars m)); lia. }
    change (forOf analyzeStep
              (mkAnalysis (totalTextChars acc + textChars m)
                 (Z.max (maxMessageTextChars acc) (textChars m))) messages
            = Ok (mkAnalysis
                    (totalTextChars acc
                     + (textChars m + sumZ (textChars <$> messages)))
                    (Z.max (maxMessageTextChars acc)
                       (Z.max (textChars m) (maxZ (textChars <$> messages)))))).
    rewrite IH by (done || simpl; lia). simpl. f_equal. f_equal; lia.
Qed.

Lemma maxZ_bounds l :
  Forall (fun x => 0 <= x) l ->
  0 <= maxZ l /\ maxZ l <= sumZ l /\ sumZ l <= len l * maxZ l.
Proof.
  unfold len. induction 1 as [|x l Hx Hl IH]; simpl; [lia|].
  destruct IH as (H0 & H1 & H2).
  assert (0 <= sumZ l) by by apply sumZ_nonneg.
  repeat split; try lia. nia.
Qed.

(** X2: on a list all of whose entries can be read, the analyzer returns
    the sum of the entries' text lengths and the largest of them; so the
    largest is never above the total, and the total never above the
    largest times the number of entries. *)
Theorem analyzeMessages_sum_and_max :
  forall messages : list value,
    existsb unreadable messages = false ->
    analyzeMessages messages
    = Ok (mkAnalysis (sumZ (textChars <$> messages)) (maxZ (textChars <$> messages)))
    /\ 0 <= maxZ (textChars <$> messages) <= sumZ (textChars <$> messages)
    /\ sumZ (textChars <$> messages) <= len messages * maxZ (textChars <$> messages).
Proof.
  intros messages Hr. split.
  - unfold analyzeMessages. rewrite analyze_from by (done || simpl; lia).
    simpl. f_equal. f_equal.
    assert (0 <= maxZ (textChars <$> messages)); [|lia].
    apply maxZ_bounds, Forall_fmap, Forall_forall. intros m _. apply textChars_nonneg.
  - assert (Forall (fun x => 0 <= x) (textChars <$> messages)) as Hpos
      by (apply Forall_fmap, Forall_forall; intros m _; apply textChars_nonneg).
    destruct (maxZ_bounds _ Hpos) as (H0 & H1 & H2).
    unfold len in *. rewrite length_fmap in H2. lia.
Qed.

Lemma analyzeMessages_sum_and_max_witness :
  analyzeMessages
    [VNum 5; Examples.message "user" "hello"; Examples.twoBlocks; VObj [("content", VNull)]]
  = Ok (mkAnalysis 65 60).
Proof.
  refine (eq_trans (proj1 (analyzeMessages_sum_and_max _ _)) _); by vm_compute.
Defined.

End SizeFacts.

(** ** The loop detector over longer runs *)

Section LoopRunFacts.

Import Usage.

Implicit Types (k : jsstring) (t : gmap jsstring LoopEntry).

(** Every call stores an entry for its key. *)
Lemma check_inserts k mc tc t :
  exists e, (checkAndUpdateLoopTracker k mc tc t).2 = <[k := e]> t
            /\ messageCount e = mc /\ totalChars e = tc
            /\ (1 <= streak e
                \/ exists old, t !! k = Some old /\ streak e = streak old + 1).
Proof.
  unfold checkAndUpdateLoopTracker. destruct (t !! k) as [old|] eqn:E.
  - destruct (bool_decide (messageCount old = mc)) eqn:E1;
      [destruct (bool_decide (totalChars old = tc)) eqn:E2|]; simpl.
    + apply bool_decide_eq_true in E1, E2.
      destruct (_ <=? _); simpl; eexists; (split; [reflexivity|]); simpl;
        repeat split; try done; right; by exists old.
    + eexists; split; [reflexivity|]. simpl. repeat split; try done. left. lia.
    + eexists; split; [reflexivity|]. simpl. repeat split; try done. left. lia.
  - eexists; split; [reflexivity|]. simpl. repeat split; try done. left. lia.
Qed.

(** What a call returns and stores for its key depends on the entry of
    that key alone. *)
Lemma check_local k mc tc t t' :
  t !! k = t' !! k ->
  (checkAndUpdateLoopTracker k mc tc t).1 = (checkAndUpdateLoopTracker k mc tc t').1
  /\ (checkAndUpdateLoopTracker k mc tc t).2 !! k
     = (checkAndUpdateLoopTracker k mc tc t').2 !! k.
Proof.
  intros H. unfold checkAndUpdateLoopTracker. rewrite H.
  destruct (t' !! k) as [old|]; simpl.
  - destruct (_ && _); [destruct (_ <=? _)|]; simpl; by rewrite !lookup_insert_eq.
  - by rewrite !lookup_insert_eq.
Qed.

Lemma observeAll_repeat k mc tc : forall (n : nat) t (s : Z),
  t !! k = Some (mkLoopEntry mc tc s) ->
  (forall i : nat, (i < n)%nat ->
     (observeAll k (replicate n (mc, tc)) t).1 !! i
     = Some (if 3 <=? s + Z.of_nat (S i)
             then Some (loopWarningText k mc tc (s + Z.of_nat (S i))) else None))
  /\ (observeAll k (replicate n (mc, tc)) t).2 !! k
     = Some (mkLoopEntry mc tc (s + Z.of_nat n)).
Proof.
  induction n as [|n IH]; intros t s Ht.
  - split; [intros i Hi; lia|]. simpl. rewrite Ht. do 2 f_equal. lia.
  - cbn [replicate observeAll].
    rewrite (check_repeated k mc tc t _ Ht eq_refl eq_refl). cbn [streak].
    destruct (IH (<[k := mkLoopEntry mc tc (s + 1)]> t) (s + 1)
                (lookup_insert_eq _ _ _)) as [Hw Hf].
    destruct (observeAll k (replicate n (mc, tc)) _) as [ws t2]. simpl in *.
    split.
    + intros [|i] Hi; simpl; [done|].
      rewrite Hw by lia. do 2 f_equal.
      replace (s + 1 + Z.of_nat (S i)) with (s + Z.of_nat (S (S i))) by lia. done.
    + rewrite Hf. do 2 f_equal. lia.
Qed.

(** X3: for a session not yet tracked, [n] observations of one shape in
    a row bring the streak to [n]; the first two draw no warning, and each
    later one draws the warning that names the key, the shape and the
    streak reached. *)
Theorem repeated_observations_build_streak :
  forall k (mc tc : Z) t (n : nat),
    t !! k = None ->
    (forall i : nat, (i < n)%nat ->
       (observeAll k (replicate n (mc, tc)) t).1 !! i
       = Some (if 3 <=? Z.of_nat (S i)
               then Some (loopWarningText k mc tc (Z.of_nat (S i))) else None))
    /\ ((0 < n)%nat ->
        (observeAll k (replicate n (mc, tc)) t).2 !! k
        = Some (mkLoopEntry mc tc (Z.of_nat n))).
Proof.
  intros k mc tc t [|n] Hfresh; [split; intros; lia|].
  cbn [replicate observeAll]. rewrite (check_fresh _ _ _ _ Hfresh).
  destruct (observeAll_repeat k mc tc n (<[k := mkLoopEntry mc tc 1]> t) 1
              (lookup_insert_eq _ _ _)) as [Hw Hf].
  destruct (observeAll k (replicate n (mc, tc)) _) as [ws t2]. simpl in *.
  split.
  - intros [|i] Hi; simpl; [done|]. rewrite Hw by lia. do 2 f_equal.
    replace (1 + Z.of_nat (S i)) with (Z.of_nat (S (S i))) by lia. done.
  - intros _. rewrite Hf. do 2 f_equal. lia.
Qed.

Lemma repeated_observations_build_streak_witness :
  (observeAll (u16 "s1") (replicate 6 (5, 1000)) ∅).1 !! 5%nat
  = Some (Some (loopWarningText (u16 "s1") 5 1000 6)).
Proof.
  apply (proj1 (repeated_observations_build_streak (u16 "s1") 5 1000 ∅ 6
                  (lookup_empty _)) 5%nat).
  lia.
Defined.

(** X4: sessions do not interfere.  A call for one key changes neither
    what a call for another key returns nor what it stores, so calls for
    different keys can be taken in either order. *)
Theorem sessions_do_not_interfere :
  forall k k' (mc tc mc' tc' : Z) t,
    k ≠ k' ->
    (checkAndUpdateLoopTracker k mc tc
       (checkAndUpdateLoopTracker k' mc' tc' t).2).1
    = (checkAndUpdateLoopTracker k mc tc t).1
    /\ (checkAndUpdateLoopTracker k mc tc
          (checkAndUpdateLoopTracker k' mc' tc' t).2).2
       = (checkAndUpdateLoopTracker k' mc' tc'
            (checkAndUpdateLoopTracker k mc tc t).2).2.
Proof.
  intros k k' mc tc mc' tc' t Hne.
  assert ((checkAndUpdateLoopTracker k' mc' tc' t).2 !! k = t !! k) as Hk
    by by apply check_other_sessions.
  assert ((checkAndUpdateLoopTracker k mc tc t).2 !! k' = t !! k') as Hk'
    by by apply check_other_sessions.
  split; [by apply check_local|].
  apply map_eq. intros j.
  destruct (decide (j = k)) as [->|Hjk]; [|destruct (decide (j = k')) as [->|Hjk']].
  - rewrite (proj2 (check_local k mc tc _ _ Hk)).
    by rewrite (check_other_sessions k' k) by congruence.
  - rewrite (check_other_sessions k k') by done.
    by rewrite (proj2 (check_local k' mc' tc' _ _ Hk')).
  - rewrite !check_other_sessions by congruence. done.
Qed.

Lemma sessions_do_not_interfere_witness :
  (checkAndUpdateLoopTracker (u16 "s1") 5 1000
     (checkAndUpdateLoopTracker (u16 "s2") 7 10 ∅).2).1
  = (checkAndUpdateLoopTracker (u16 "s1") 5 1000 ∅).1.
Proof.
  apply (sessions_do_not_interfere (u16 "s1") (u16 "s2") 5 1000 7 10 ∅).
  by vm_compute.
Defined.

Lemma observeMany_dom calls : forall t,
  dom (observeMany calls t) = list_to_set ((fun c => c.1.1) <$> calls) ∪ dom t.
Proof.
  induction calls as [|[[k mc] tc] calls IH]; intros t; simpl.
  - set_solver.
  - rewrite IH. destruct (check_inserts k mc tc t) as (e & -> & _).
    rewrite dom_insert_L. set_solver.
Qed.

Lemma observeMany_streaks calls : forall t,
  map_Forall (fun _ e => 1 <= streak e) t ->
  map_Forall (fun _ e => 1 <= streak e) (observeMany calls t).
Proof.
  induction calls as [|[[k mc] tc] calls IH]; intros t Ht; simpl; [done|].
  apply IH. destruct (check_inserts k mc tc t) as (e & -> & _ & _ & He).
  apply map_Forall_insert_2; [|done].
  destruct He as [He|(old & Hold & ->)]; [done|].
  specialize (Ht k old Hold). simpl in Ht. lia.
Qed.

(** X5: the tracker never forgets and never counts below one.  After any
    run of calls from an empty tracker, the keys it holds are exactly the
    keys that were observed, and every streak is at least 1. *)
Theorem tracker_keeps_every_session :
  forall calls : list (jsstring * Z * Z),
    dom (observeMany calls ∅) = list_to_set ((fun c => c.1.1) <$> calls)
    /\ forall k e, observeMany calls ∅ !! k = Some e -> 1 <= streak e.
Proof.
  intros calls. split.
  - rewrite observeMany_dom. set_solver.
  - intros k e. apply (observeMany_streaks calls ∅). apply map_Forall_empty.
Qed.

End LoopRunFacts.

(** ** The logger's two operations *)

Section LoggerFacts.

Import Usage.

Context {S R : Type}.
Variable safeJsonStringify : UsageLogEvent -> option jsstring.
Variable params : LoggerParams.
Variable streamFn : StreamFn S R.

#[local] Abbreviation wrappedFn := (wrapStreamFn safeJsonStringify params streamFn).
#[local] Abbreviation usageFn := (recordUsage (S := S) safeJsonStringify params).

Lemma analyzeMessages_readable messages :
  existsb unreadable messages = false ->
  analyzeMessages messages
  = Ok (mkAnalysis (sumZ (textChars <$> messages)) (maxZ (textChars <$> messages))).
Proof.
  intros Hr. unfold analyzeMessages. rewrite analyze_from by (done || simpl; lia).
  simpl. f_equal. f_equal.
  assert (0 <= maxZ (textChars <$> messages)); [|lia].
  apply maxZ_bounds, Forall_fmap, Forall_forall. intros m _. apply textChars_nonneg.
Qed.

Lemma loopWarningText_truthy (k : jsstring) (mc tc s : Z) :
  truthyText (Some (loopWarningText k mc tc s)) = true.
Proof.
  unfold truthyText. apply negb_true_iff, bool_decide_eq_false.
  intros H. apply (f_equal length) in H. unfold loopWarningText in H.
  rewrite !length_app in H. simpl in H. lia.
Qed.

(** The detector warns exactly on a repeat that reaches the threshold. *)
Lemma check_warning (k : jsstring) (mc tc : Z) (t : gmap jsstring LoopEntry) :
  (exists e, t !! k = Some e /\ messageCount e = mc /\ totalChars e = tc
             /\ 3 <= streak e + 1
             /\ (checkAndUpdateLoopTracker k mc tc t).1
                = Some (loopWarningText k mc tc (streak e + 1)))
  \/ ((checkAndUpdateLoopTracker k mc tc t).1 = None
      /\ ~ exists e, t !! k = Some e /\ messageCount e = mc /\ totalChars e = tc
                     /\ 3 <= streak e + 1).
Proof.
  destruct (t !! k) as [e|] eqn:E.
  - destruct (decide (messageCount e = mc)) as [Hmc|Hmc];
      [destruct (decide (totalChars e = tc)) as [Htc|Htc]|].
    + rewrite (check_repeated _ _ _ _ _ E Hmc Htc). simpl.
      destruct (Z.leb_spec 3 (streak e + 1)).
      * left. by exists e.
      * right. split; [done|]. intros (e' & [= <-] & _ & _ & ?). lia.
    + right. rewrite (check_changed _ _ _ _ _ E (or_intror Htc)).
      split; [done|]. intros (e' & [= <-] & _ & ? & _). done.
    + right. rewrite (check_changed _ _ _ _ _ E (or_introl Hmc)).
      split; [done|]. intros (e' & [= <-] & ? & _). done.
  - right. rewrite (check_fresh _ _ _ _ E). split; [done|].
    intros (e' & [=] & _).
Qed.

(** X6: on a context all of whose messages can be read, the wrapped
    function calls [streamFn] exactly once, with the arguments it was given
    and on the state the callee was in, and returns or throws what that
    call returned or threw. *)
Theorem wrapStreamFn_calls_once_when_readable :
  forall (model context options : value) (w : World S),
    existsb unreadable (contextMessages context) = false ->
    exists w',
      wrappedFn model context options w
      = ((streamFn model context options (callee w)).1, w')
      /\ callee w' = (streamFn model context options (callee w)).2
      /\ invoked w' = invoked w ++ [(model, context, options)].
Proof.
  intros model context options w Hr.
  eapply wrapStreamFn_forwards. by apply analyzeMessages_readable.
Qed.

(** X7: the event a wrapped call writes carries the sizes the analyzer
    measured and the estimate for them; its stage is [loop_break], with the
    detector's warning in it, exactly when the tracker held the same shape
    for the session and the streak reaches 3, and [input] otherwise. *)
Theorem wrapStreamFn_event_follows_detector :
  forall (model context options : value) (w : World S),
    existsb unreadable (contextMessages context) = false ->
    exists event,
      written (wrappedFn model context options w).2 = written w ++ linesOf safeJsonStringify event
      /\ base event = params
      /\ ev_messageCount event = len (contextMessages context)
      /\ ev_totalTextChars event = sumZ (textChars <$> contextMessages context)
      /\ ev_maxMessageTextChars event = maxZ (textChars <$> contextMessages context)
      /\ estimatedInputTokens event = estimateTokens (ev_totalTextChars event)
      /\ (stage event = StageLoopBreak \/ stage event = StageInput)
      /\ (stage event = StageLoopBreak <->
          exists e, loopTracker w !! sessionLabelOf params = Some e
                    /\ messageCount e = ev_messageCount event
                    /\ totalChars e = ev_totalTextChars event
                    /\ 3 <= streak e + 1)
      /\ (stage event = StageLoopBreak <-> is_Some (loopWarning event)).
Proof.
  intros model context options w Hr.
  pose proof (analyzeMessages_readable _ Hr) as Ha.
  destruct (checkAndUpdateLoopTracker (sessionLabelOf params)
              (len (contextMessages context))
              (sumZ (textChars <$> contextMessages context)) (loopTracker w))
    as [warning tracker'] eqn:Hcheck.
  destruct (wrapStreamFn_side_channel safeJsonStringify params streamFn
              model context options w _ Ha warning tracker' Hcheck) as (_ & Hw & _).
  eexists. split; [exact Hw|]. cbn [base ev_messageCount ev_totalTextChars
    ev_maxMessageTextChars estimatedInputTokens stage loopWarning totalTextChars
    maxMessageTextChars].
  repeat (split; [done|]).
  destruct (check_warning (sessionLabelOf params) (len (contextMessages context))
              (sumZ (textChars <$> contextMessages context)) (loopTracker w))
    as [(e & He & Hmc & Htc & Hs & Hwarn)|[Hnone Hno]];
    rewrite Hcheck in *; simpl in *; subst warning.
  - rewrite loopWarningText_truthy. split; [by left|]. split.
    + split; [intros _; by exists e | done].
    + split; [intros _; by eexists | done].
  - simpl. split; [by right|]. split.
    + split; [intros [=] | intros He; exfalso; by apply Hno].
    + split; [intros [=] | intros [? [=]]].
Qed.

(** X8: a context without a message array (no context at all, no
    [messages] property, or one that is not an array) is taken as holding
    no message: the wrapped call never throws on its own account, forwards
    once, and stores the shape (0, 0) for the session. *)
Theorem wrapStreamFn_tolerates_missing_messages :
  forall (model context options : value) (w : World S),
    isArray (getPropOpt "messages" context) = false ->
    (exists w',
       wrappedFn model context options w
       = ((streamFn model context options (callee w)).1, w')
       /\ invoked w' = invoked w ++ [(model, context, options)])
    /\ exists e,
         loopTracker (wrappedFn model context options w).2 !! sessionLabelOf params
         = Some e
         /\ messageCount e = 0 /\ totalChars e = 0.
Proof.
  intros model context options w Harr.
  assert (contextMessages context = []) as Hnil.
  { unfold contextMessages. by destruct (getPropOpt "messages" context). }
  assert (analyzeMessages (contextMessages context) = Ok (mkAnalysis 0 0)) as Ha
    by by rewrite Hnil.
  split.
  - destruct (wrapStreamFn_forwards safeJsonStringify params streamFn
                model context options w _ Ha) as (w' & Hrun & _ & Hinv).
    by exists w'.
  - destruct (checkAndUpdateLoopTracker (sessionLabelOf params)
                (len (contextMessages context)) 0 (loopTracker w))
      as [warning tracker'] eqn:Hcheck.
    destruct (wrapStreamFn_side_channel safeJsonStringify params streamFn
                model context options w _ Ha warning tracker' Hcheck) as (-> & _).
    destruct (check_inserts (sessionLabelOf params)
                (len (contextMessages context)) 0 (loopTracker w))
      as (e & He & Hmc & Htc & _).
    rewrite Hcheck in He. simpl in He. subst tracker'.
    exists e. rewrite lookup_insert_eq. rewrite Hnil in Hmc. done.
Qed.

(** What [record] changes is the list of written lines. *)
Lemma record_run event (w : World S) :
  record safeJsonStringify event w
  = (Ok tt, mkWorld (loopTracker w) (written w ++ linesOf safeJsonStringify event)
              (logged w) (now w) (invoked w) (callee w)).
Proof.
  unfold record, linesOf. destruct w. simpl.
  destruct (safeJsonStringify event) as [line|]; [case_bool_decide|];
    simpl; by rewrite ?app_nil_r.
Qed.

(** X9: [recordUsage] stays on the side channel.  Whatever it is given,
    it never calls a stream function, never touches the loop tracker or
    the callee, and hands the writer at most one line. *)
Theorem recordUsage_stays_on_side_channel :
  forall (messages : value) (usage : option UsageTotals) (error : ErrorArg)
         (w : World S),
    invoked (usageFn messages usage error w).2 = invoked w
    /\ callee (usageFn messages usage error w).2 = callee w
    /\ loopTracker (usageFn messages usage error w).2 = loopTracker w
    /\ exists lines,
         written (usageFn messages usage error w).2 = written w ++ lines
         /\ (length lines <= 1)%nat.
Proof.
  intros messages usage error w.
  unfold recordUsage, bind, lift, gets.
  destruct (analyzeMessages _) as [a|e].
  2: { simpl. repeat split. exists []. split; [by rewrite app_nil_r | simpl; lia]. }
  rewrite record_run.
  match goal with |- context [linesOf _ ?ev] => set (event := ev) end.
  assert (length (linesOf safeJsonStringify event) <= 1)%nat as Hlen.
  { unfold linesOf. destruct (safeJsonStringify event); [case_bool_decide|]; simpl; lia. }
  destruct (truthyCount _ || truthyCount _); simpl; repeat split; by eexists.
Qed.

(** X10: after a recorded usage the information line goes to the logger
    exactly when an input or an output count is given and is not zero; a
    usage of zero tokens on both sides is written to the file and not
    logged. *)
Theorem recordUsage_logs_only_nonzero_usage :
  forall (messages : list value) (usage : option UsageTotals) (error : ErrorArg)
         (w : World S),
    existsb unreadable messages = false ->
    (usageFn (VArr messages) usage error w).1 = Ok tt
    /\ logged (usageFn (VArr messages) usage error w).2
       = logged w
         ++ (if truthyCount (usage ≫= input) || truthyCount (usage ≫= output)
             then [(LogInfo, u16 "[llm-usage] usage")] else [])
    /\ exists event,
         written (usageFn (VArr messages) usage error w).2
         = written w ++ linesOf safeJsonStringify event
         /\ stage event = StageUsage
         /\ ev_messageCount event = len messages
         /\ ev_totalTextChars event = sumZ (textChars <$> messages)
         /\ inputTokens event = usage ≫= input
         /\ outputTokens event = usage ≫= output.
Proof.
  intros messages usage error w Hr.
  unfold recordUsage, bind, lift, gets.
  rewrite (analyzeMessages_readable _ Hr), record_run.
  destruct (truthyCount (usage ≫= input) || truthyCount (usage ≫= output)); simpl;
    rewrite ?app_nil_r; repeat split; by eexists.
Qed.

(** X11: [recordUsage] takes a [messages] value that is not an array as
    an empty list, but an array with an entry the analyzer cannot read
    makes it throw the analyzer's [TypeError], with nothing written and
    nothing logged. *)
Theorem recordUsage_throws_on_unreadable_entry :
  forall (messages : value) (usage : option UsageTotals) (error : ErrorArg)
         (w : World S),
    (isArray messages = false -> (usageFn messages usage error w).1 = Ok tt)
    /\ (forall items, messages = VArr items -> existsb unreadable items = true ->
        usageFn messages usage error w = (Throw TypeError, w)).
Proof.
  intros messages usage error w. split.
  - intros Harr. unfold recordUsage, bind, lift, gets.
    assert (match messages with VArr items => items | _ => [] end = []) as ->
      by by destruct messages.
    simpl. rewrite record_run. by destruct (_ || _).
  - intros items -> Hbad. unfold recordUsage, bind, lift.
    by rewrite (analyzeMessages_unreadable _ Hbad).
Qed.

End LoggerFacts.

Lemma wrapStreamFn_calls_once_when_readable_witness :
  exists w',
    Usage.wrapStreamFn Examples.eventLine Examples.anonymous Examples.countingStream
      (VStr (u16 "model")) (VObj [("messages", VArr [Examples.twoBlocks])]) VUndefined
      Examples.quietWorld
    = (Ok (VStr (u16 "stream")), w')
    /\ Usage.callee w' = 1
    /\ Usage.invoked w'
       = [(VStr (u16 "model"), VObj [("messages", VArr [Examples.twoBlocks])], VUndefined)].
Proof.
  apply (wrapStreamFn_calls_once_when_readable Examples.eventLine Examples.anonymous
           Examples.countingStream).
  reflexivity.
Defined.

Lemma wrapStreamFn_event_follows_detector_witness :
  exists event,
    Usage.written
      (Usage.wrapStreamFn Examples.eventLine Examples.anonymous Examples.countingStream
         (VStr (u16 "model")) (VObj [("messages", VArr [Examples.twoBlocks])]) VUndefined
         Examples.quietWorld).2
    = [] ++ Usage.linesOf Examples.eventLine event
    /\ Usage.ev_totalTextChars event = 60.
Proof.
  destruct (wrapStreamFn_event_follows_detector Examples.eventLine Examples.anonymous
              Examples.countingStream (VStr (u16 "model"))
              (VObj [("messages", VArr [Examples.twoBlocks])]) VUndefined
              Examples.quietWorld eq_refl) as (event & Hw & _ & _ & Ht & _).
  exists event. split; [exact Hw | exact Ht].
Defined.

Lemma wrapStreamFn_tolerates_missing_messages_witness :
  exists w',
    Usage.wrapStreamFn Examples.eventLine Examples.anonymous Examples.countingStream
      (VStr (u16 "model")) VNull VUndefined Examples.quietWorld
    = (Ok (VStr (u16 "stream")), w')
    /\ Usage.invoked w' = [(VStr (u16 "model"), VNull, VUndefined)].
Proof.
  apply (wrapStreamFn_tolerates_missing_messages Examples.eventLine Examples.anonymous
           Examples.countingStream).
  reflexivity.
Defined.

Lemma recordUsage_logs_only_nonzero_usage_witness :
  Usage.logged
    (Usage.recordUsage Examples.eventLine Examples.anonymous
       (VArr [Examples.message "user" "hello"])
       (Some (Usage.mkUsageTotals (Some 0) (Some 0) None None)) Usage.ErrorOther
       Examples.quietWorld).2
  = [].
Proof.
  refine (eq_trans (proj1 (proj2 (recordUsage_logs_only_nonzero_usage Examples.eventLine
    Examples.anonymous [Examples.message "user" "hello"]
    (Some (Usage.mkUsageTotals (Some 0) (Some 0) None None)) Usage.ErrorOther
    Examples.quietWorld _))) _); reflexivity.
Defined.

Lemma recordUsage_throws_on_unreadable_entry_witness :
  Usage.recordUsage Examples.eventLine Examples.anonymous (VArr [VNull])
    (Some (Usage.mkUsageTotals (Some 120) (Some 40) None None)) Usage.ErrorOther
    Examples.quietWorld
  = (Throw TypeError, Examples.quietWorld).
Proof.
  apply (proj2 (recordUsage_throws_on_unreadable_entry Examples.eventLine
                  Examples.anonymous (VArr [VNull]) _ _ _) [VNull] eq_refl).
  reflexivity.
Defined.

(** ** The compactor as a whole *)

Section CompactorFacts.

Import Compact.

Implicit Types (l : list value) (options : Options).

Lemma compactMessage_role mc tc msg :
  field "role" (compactMessage mc tc msg) = field "role" msg.
Proof.
  destruct (undefined_or_not (field "content" msg)) as [Hc|Hc].
  - by rewrite compactMessage_no_content.
  - rewrite compactMessage_content by done.
    destruct (field_defined_object _ _ Hc) as [props ->].
    by apply field_spreadWith_ne.
Qed.

Lemma compactMessage_field_content mc tc msg :
  field "content" (compactMessage mc tc msg)
  = compactContent mc tc (field "content" msg) (isToolResultRole (field "role" msg)).
Proof.
  destruct (undefined_or_not (field "content" msg)) as [Hc|Hc].
  - rewrite compactMessage_no_content by done. by rewrite Hc.
  - rewrite compactMessage_content by done. apply field_spreadWith_eq.
Qed.

Lemma compactBlock_bounded cap block text :
  47 <= cap -> field "text" (compactBlock cap block) = VStr text -> len text <= cap.
Proof.
  intros Hcap. unfold compactBlock.
  destruct (negb (truthy block) || negb (typeofObject block)) eqn:Eg.
  - intros H. destruct block; simpl in *; discriminate.
  - destruct (field "text" block) as [| | | |t| |] eqn:Et; try (rewrite Et; discriminate).
    destruct (Z.leb_spec (len t) cap).
    + rewrite Et. intros [= <-]. done.
    + rewrite field_spreadWith_eq. intros [= <-]. by apply truncateString_bounded.
Qed.

(** X12: with caps of at least the 47 characters of the marker, every
    message [compactMessages] hands back is within the cap of its role: its
    string content, and each text of its blocks, is no longer than the
    cap. *)
Theorem compactMessages_output_within_caps :
  forall (messages : list value) options (out : value),
    47 <= default 20000 (maxMessageChars options) ->
    47 <= default 8000 (maxToolResultChars options) ->
    out ∈ compactMessages messages options ->
    (forall text, field "content" out = VStr text -> len text <= capOf options out)
    /\ (forall blocks block text,
          field "content" out = VArr blocks -> block ∈ blocks ->
          field "text" block = VStr text -> len text <= capOf options out).
Proof.
  intros messages options out Hmc Htc (m & _ & ->)%compactMessages_elem.
  unfold capOf. rewrite compactMessage_role, compactMessage_field_content.
  set (tool := isToolResultRole (field "role" m)).
  assert (47 <= (if tool then default 8000 (maxToolResultChars options)
                 else default 20000 (maxMessageChars options))) as Hcap
    by by destruct tool.
  destruct (field "content" m) as [| | | |s|items|ps]; simpl; split; try discriminate.
  - intros text [= <-]. destruct tool; by apply truncateString_bounded.
  - intros blocks block text [= <-] (b & -> & _)%list_elem_of_fmap Ht.
    destruct tool; by eapply compactBlock_bounded.
Qed.

Lemma compactMessages_output_within_caps_witness :
  len (take 3 (u16 "0123456789012345678901234567890123456789012345678901234567890")
       ++ TRUNC_SUFFIX) <= 50.
Proof.
  refine (proj1 (compactMessages_output_within_caps
    [Examples.message "user"
       "0123456789012345678901234567890123456789012345678901234567890"]
    Examples.cap50
    (VObj [("role", VStr (u16 "user"));
           ("content",
            VStr (take 3 (u16 "0123456789012345678901234567890123456789012345678901234567890")
                  ++ TRUNC_SUFFIX))]) _ _ _) _ _).
  - by vm_compute.
  - by vm_compute.
  - vm_compute. left.
  - reflexivity.
Defined.

Lemma filter_split_perm {A} (p q : A -> bool) (l : list A) :
  (forall x, q x = negb (p x)) -> List.filter p l ++ List.filter q l ≡ₚ l.
Proof.
  intros Hq. induction l as [|x l IH]; simpl; [done|].
  rewrite Hq. destruct (p x); simpl.
  - by rewrite IH.
  - rewrite <- Permutation_middle. by rewrite IH.
Qed.

Lemma dedupeFrom_sublist seen l : dedupeFrom seen l `sublist_of` l.
Proof.
  revert seen. induction l as [|m l IH]; intros seen; simpl; [done|].
  destruct (dedupeTest seen m) as [[] seen'].
  - by apply sublist_skip.
  - by apply sublist_cons.
Qed.

Lemma windowMessages_submseteq n l : windowMessages n l ⊆+ l.
Proof.
  unfold windowMessages. destruct (_ && _); [|done].
  trans (List.filter isSystem l ++ List.filter isNonSystem l).
  - apply submseteq_skips_l. unfold sliceFrom.
    apply sublist_submseteq, sublist_drop.
  - apply Permutation_submseteq, filter_split_perm, isNonSystem_negb.
Qed.

(** X13: whatever the options, [compactMessages] hands back no more
    messages than it was given, each of them an input message after
    truncation and none more often than the input holds it. *)
Theorem compactMessages_hands_back_input_messages :
  forall (messages : list value) options,
    compactMessages messages options
    ⊆+ (compactMessage (default 20000 (maxMessageChars options))
          (default 8000 (maxToolResultChars options)) <$> messages)
    /\ len (compactMessages messages options) <= len messages.
Proof.
  intros messages options.
  assert (compactMessages messages options
          ⊆+ (compactMessage (default 20000 (maxMessageChars options))
                (default 8000 (maxToolResultChars options)) <$> messages)) as Hsub.
  { unfold compactMessages. etrans; [apply windowMessages_submseteq|].
    apply sublist_submseteq, dedupeFrom_sublist. }
  split; [done|]. apply submseteq_length in Hsub.
  rewrite length_fmap in Hsub. unfold len. lia.
Qed.

(** X14: the system messages [compactMessages] hands back have distinct
    texts: no two of them share a key, whatever the options. *)
Theorem compactMessages_system_texts_distinct :
  forall (messages : list value) options,
    NoDup (systemKeys (compactMessages messages options)).
Proof.
  intros messages options. unfold compactMessages, systemKeys.
  rewrite windowMessages_system. apply dedupeFrom_keys.
Qed.

(** X15: the window never drops a system message and never reorders
    within a group: the system messages handed back are those left after
    deduplication, in their order, and the other messages handed back are
    a tail of the others left after deduplication. *)
Theorem window_keeps_system_messages :
  forall (messages : list value) options,
    List.filter isSystem (compactMessages messages options)
    = List.filter isSystem (afterDedupe messages options)
    /\ List.filter isNonSystem (compactMessages messages options)
       `suffix_of` List.filter isNonSystem (afterDedupe messages options).
Proof.
  intros messages options.
  change (compactMessages messages options)
    with (windowMessages (default 60 (maxMessages options))
            (afterDedupe messages options)).
  split; [apply windowMessages_system|].
  set (n := default 60 (maxMessages options)).
  set (c := afterDedupe messages options).
  destruct (decide (0 < n /\ n < len c)) as [[Hn Hl]|Hno].
  - rewrite windowMessages_nonSystem by done. unfold sliceFrom. apply suffix_drop.
  - by rewrite windowMessages_keep by lia.
Qed.

(** X16: when the window applies and the system messages alone fill it
    ([systemCount >= maxMessages]), the tail is [slice(-0)]: every other
    message is kept as well, the result is the messages left after
    deduplication with the system messages moved to the front, and it is
    longer than [maxMessages]. *)
Theorem window_full_of_system_messages_drops_nothing :
  forall (messages : list value) options,
    0 < default 60 (maxMessages options) ->
    default 60 (maxMessages options) < len (afterDedupe messages options) ->
    default 60 (maxMessages options)
    <= len (List.filter isSystem (afterDedupe messages options)) ->
    compactMessages messages options
    = List.filter isSystem (afterDedupe messages options)
      ++ List.filter isNonSystem (afterDedupe messages options)
    /\ compactMessages messages options ≡ₚ afterDedupe messages options
    /\ default 60 (maxMessages options) < len (compactMessages messages options).
Proof.
  intros messages options Hn Hl Hsys.
  assert (compactMessages messages options
          = List.filter isSystem (afterDedupe messages options)
            ++ List.filter isNonSystem (afterDedupe messages options)) as Heq.
  { change (compactMessages messages options)
      with (windowMessages (default 60 (maxMessages options))
              (afterDedupe messages options)).
    rewrite windowMessages_trim by done. f_equal.
    unfold tailStart. rewrite Z.max_l by lia. apply sliceFrom_zero. }
  split; [done|].
  assert (compactMessages messages options ≡ₚ afterDedupe messages options) as Hperm
    by (rewrite Heq; apply filter_split_perm, isNonSystem_negb).
  split; [done|]. unfold len in *. by rewrite (Permutation_length Hperm).
Qed.

Lemma window_full_of_system_messages_drops_nothing_witness :
  compactMessages
    [Examples.message "user" "x"; Examples.message "system" "a";
     Examples.message "system" "b"] (Examples.window 2)
  = [Examples.message "system" "a"; Examples.message "system" "b";
     Examples.message "user" "x"].
Proof.
  refine (eq_trans (proj1 (window_full_of_system_messages_drops_nothing
    [Examples.message "user" "x"; Examples.message "system" "a";
     Examples.message "system" "b"] (Examples.window 2) _ _ _)) _); by vm_compute.
Defined.

End CompactorFacts.

Section CompactorSizeFacts.

Import Usage Compact.

Lemma sumZ_perm (l1 l2 : list Z) : l1 ≡ₚ l2 -> sumZ l1 = sumZ l2.
Proof. induction 1; simpl in *; lia. Qed.

Lemma maxZ_perm (l1 l2 : list Z) : l1 ≡ₚ l2 -> maxZ l1 = maxZ l2.
Proof. induction 1; simpl in *; lia. Qed.

Lemma maxZ_app (l1 l2 : list Z) : maxZ (l1 ++ l2) = Z.max (maxZ l1) (maxZ l2).
Proof.
  induction l1 as [|x l1 IH]; simpl.
  - assert (0 <= maxZ l2) by (induction l2; simpl; lia). lia.
  - rewrite IH. lia.
Qed.

(** Dropping messages lowers neither measure below what is left. *)
Lemma measures_submseteq (l1 l2 : list value) :
  l1 ⊆+ l2 ->
  sumZ (textChars <$> l1) <= sumZ (textChars <$> l2)
  /\ maxZ (textChars <$> l1) <= maxZ (textChars <$> l2).
Proof.
  intros (k & Hk)%submseteq_Permutation.
  assert (textChars <$> l2 ≡ₚ (textChars <$> l1) ++ (textChars <$> k)) as Hperm
    by by rewrite Hk, fmap_app.
  rewrite (sumZ_perm _ _ Hperm), (maxZ_perm _ _ Hperm), sumZ_app, maxZ_app.
  assert (0 <= sumZ (textChars <$> k)).
  { apply sumZ_nonneg, Forall_fmap, Forall_forall. intros m _. apply textChars_nonneg. }
  lia.
Qed.

Lemma truncateString_no_longer text limit :
  47 <= limit -> len (truncateString text limit) <= len text.
Proof.
  intros Hcap. destruct (Z.le_gt_cases (len text) limit).
  - by rewrite truncateString_short.
  - rewrite truncateString_long_length by lia. lia.
Qed.

Lemma blockChars_compactBlock cap block :
  47 <= cap -> blockChars (compactBlock cap block) <= blockChars block.
Proof.
  intros Hcap. destruct (field "text" block) as [| | | |text| |] eqn:Et;
    try (rewrite (compactBlock_short cap block) by (intros ? ?; congruence); lia).
  destruct (Z.le_gt_cases (len text) cap).
  - rewrite (compactBlock_short cap block); [lia|]. intros ? ?; congruence.
  - rewrite (compactBlock_long cap block text) by (done || lia).
    unfold blockChars. rewrite field_spreadWith_eq, Et.
    rewrite truncateString_long_length by lia. lia.
Qed.

Lemma sumZ_pointwise {A} (f g : A -> Z) (l : list A) :
  (forall x, f x <= g x) -> sumZ (f <$> l) <= sumZ (g <$> l).
Proof.
  intros H. induction l as [|x l IH]; simpl; [lia|].
  specialize (H x). change (f x + sumZ (f <$> l) <= g x + sumZ (g <$> l)). lia.
Qed.

Lemma maxZ_pointwise {A} (f g : A -> Z) (l : list A) :
  (forall x, f x <= g x) -> maxZ (f <$> l) <= maxZ (g <$> l).
Proof.
  intros H. induction l as [|x l IH]; simpl; [lia|].
  specialize (H x).
  change (Z.max (f x) (maxZ (f <$> l)) <= Z.max (g x) (maxZ (g <$> l))). lia.
Qed.

Lemma textChars_compactMessage mc tc msg :
  47 <= mc -> 47 <= tc -> textChars (compactMessage mc tc msg) <= textChars msg.
Proof.
  intros Hmc Htc. unfold textChars. rewrite compactMessage_field_content.
  set (tool := isToolResultRole (field "role" msg)).
  assert (47 <= (if tool then tc else mc)) as Hcap by by destruct tool.
  destruct (field "content" msg) as [| | | |s|items|ps]; simpl; try lia.
  - by apply truncateString_no_longer.
  - rewrite <- list_fmap_compose. apply sumZ_pointwise.
    intros b. simpl. by apply blockChars_compactBlock.
Qed.

Lemma nullish_compactBlock cap block : nullish (compactBlock cap block) = nullish block.
Proof.
  unfold compactBlock. destruct (_ || _); [done|].
  destruct (field "text" block) as [| | | |text| |] eqn:Et; try done.
  destruct (_ <=? _); [done|]. by destruct block.
Qed.

Lemma unreadable_compactMessage mc tc msg :
  unreadable (compactMessage mc tc msg) = unreadable msg.
Proof.
  unfold unreadable. rewrite compactMessage_field_content.
  assert (nullish (compactMessage mc tc msg) = nullish msg) as ->.
  { destruct (undefined_or_not (field "content" msg)) as [Hc|Hc].
    - by rewrite compactMessage_no_content.
    - rewrite compactMessage_content by done.
      by destruct (field_defined_object _ _ Hc) as [props ->]. }
  f_equal. destruct (field "content" msg) as [| | | |s|items|ps]; simpl; try done.
  generalize (if isToolResultRole (field "role" msg) then tc else mc). intros cap.
  induction items as [|b items IH]; [done|].
  change (nullish (compactBlock cap b) || existsb nullish (compactBlock cap <$> items)
          = nullish b || existsb nullish items).
  by rewrite nullish_compactBlock, IH.
Qed.

Lemma existsb_false_elem {A} (p : A -> bool) (l : list A) :
  existsb p l = false <-> forall x, x ∈ l -> p x = false.
Proof.
  induction l as [|y l IH]; simpl.
  - split; [intros _ x Hx; by apply elem_of_nil in Hx | done].
  - rewrite orb_false_iff, IH. split.
    + intros [Hy Hl] x [->|Hx]%elem_of_cons; eauto.
    + intros H. split; [apply H; left | intros x Hx; apply H; by right].
Qed.

(** X17: with caps of at least the 47 characters of the marker,
    compaction never adds text.  When the analyzer can read the input it
    can read the output, and neither the total text length nor the largest
    message it measures is higher after compaction than before. *)
Theorem compactMessages_never_adds_text :
  forall (messages : list value) (options : Options),
    47 <= default 20000 (maxMessageChars options) ->
    47 <= default 8000 (maxToolResultChars options) ->
    existsb unreadable messages = false ->
    exists before after,
      analyzeMessages messages = Ok before
      /\ analyzeMessages (compactMessages messages options) = Ok after
      /\ totalTextChars after <= totalTextChars before
      /\ maxMessageTextChars after <= maxMessageTextChars before.
Proof.
  intros messages options Hmc Htc Hr.
  set (mc := default 20000 (maxMessageChars options)) in *.
  set (tc := default 8000 (maxToolResultChars options)) in *.
  assert (compactMessages messages options ⊆+ (compactMessage mc tc <$> messages))
    as Hsub.
  { unfold compactMessages. etrans; [apply windowMessages_submseteq|].
    apply sublist_submseteq, dedupeFrom_sublist. }
  assert (existsb unreadable (compactMessages messages options) = false) as Hr'.
  { apply existsb_false_elem. intros out Hout.
    eapply elem_of_submseteq in Hout; [|exact Hsub].
    apply list_elem_of_fmap in Hout as (m & -> & Hm).
    rewrite unreadable_compactMessage.
    by apply (proj1 (existsb_false_elem unreadable messages) Hr). }
  eexists _, _. split; [by apply analyzeMessages_readable|].
  split; [by apply analyzeMessages_readable|]. simpl.
  destruct (measures_submseteq _ _ Hsub) as [Hsum Hmax].
  rewrite <- !list_fmap_compose in Hsum, Hmax.
  pose proof (sumZ_pointwise (textChars ∘ compactMessage mc tc) textChars messages
                (fun m => textChars_compactMessage mc tc m Hmc Htc)).
  pose proof (maxZ_pointwise (textChars ∘ compactMessage mc tc) textChars messages
                (fun m => textChars_compactMessage mc tc m Hmc Htc)).
  lia.
Qed.

Lemma compactMessages_never_adds_text_witness :
  exists before after,
    analyzeMessages [Examples.longMessage; Examples.twoBlocks] = Ok before
    /\ analyzeMessages
         (compactMessages [Examples.longMessage; Examples.twoBlocks] Examples.cap20000)
       = Ok after
    /\ totalTextChars after <= totalTextChars before
    /\ maxMessageTextChars after <= maxMessageTextChars before.
Proof.
  apply compactMessages_never_adds_text; by vm_compute.
Defined.

Lemma withinCaps_fixed options msg :
  withinCaps options msg = true ->
  compactMessage (default 20000 (maxMessageChars options))
    (default 8000 (maxToolResultChars options)) msg = msg.
Proof.
  unfold withinCaps, capOf. intros Hw.
  destruct (undefined_or_not (field "content" msg)) as [Hc|Hc].
  { by apply compactMessage_no_content. }
  rewrite compactMessage_content by done.
  destruct (field_defined_object _ _ Hc) as [props ->].
  set (tool := isToolResultRole (field "role" (VObj props))) in *.
  set (cap := if tool then default 8000 (maxToolResultChars options)
              else default 20000 (maxMessageChars options)) in *.
  assert (compactContent (default 20000 (maxMessageChars options))
            (default 8000 (maxToolResultChars options))
            (field "content" (VObj props)) tool
          = field "content" (VObj props)) as ->.
  { destruct (field "content" (VObj props)) as [| | | |s|items|ps]; simpl; try done.
    - fold cap. apply Z.leb_le in Hw. by rewrite truncateString_short.
    - fold cap. f_equal. rewrite <- (list_fmap_id items) at 2.
      apply list_fmap_ext. intros i b Hb. simpl.
      apply compactBlock_short. intros text Ht.
      rewrite forallb_forall in Hw.
      specialize (Hw b (proj1 (list_elem_of_In _ _) (list_elem_of_lookup_2 _ _ _ Hb))).
      rewrite Ht in Hw. by apply Z.leb_le. }
  simpl in *. f_equal. by apply setProp_lookup.
Qed.

(** X18: a list that is already compact comes back as it is: when every
    text is within the cap of its message, no two system messages share a
    key, and the list is within the window (or the window is switched off
    by a [maxMessages] of zero or less), [compactMessages] returns its
    input. *)
Theorem compactMessages_leaves_compact_input :
  forall (messages : list value) (options : Options),
    forallb (withinCaps options) messages = true ->
    NoDup (systemKeys messages) ->
    default 60 (maxMessages options) <= 0
    \/ len messages <= default 60 (maxMessages options) ->
    compactMessages messages options = messages.
Proof.
  intros messages options Hcaps Hnd Hwin. unfold compactMessages.
  assert (compactMessage (default 20000 (maxMessageChars options))
            (default 8000 (maxToolResultChars options)) <$> messages = messages) as ->.
  { rewrite <- (list_fmap_id messages) at 2. apply list_fmap_ext.
    intros i m Hm. simpl. apply withinCaps_fixed.
    rewrite forallb_forall in Hcaps. apply Hcaps.
    by apply list_elem_of_In, list_elem_of_lookup_2 with i. }
  rewrite dedupeFrom_fixed; [|done|intros k _; set_solver].
  by apply windowMessages_keep.
Qed.

Lemma compactMessages_leaves_compact_input_witness :
  compactMessages
    [Examples.message "system" "a"; Examples.twoBlocks; Examples.message "system" "b"]
    noOptions
  = [Examples.message "system" "a"; Examples.twoBlocks; Examples.message "system" "b"].
Proof.
  apply compactMessages_leaves_compact_input.
  - by vm_compute.
  - apply (bool_decide_unpack _). by vm_compute.
  - right. by vm_compute.
Defined.

End CompactorSizeFacts.

(** ** The turn limiter, run twice and on short histories *)

Section LimiterRunFacts.

Import History.

Context {AgentMessage : Type}.
Variable role : AgentMessage -> jsstring.

#[local] Abbreviation isUser := (History.isUser role).
#[local] Abbreviation countUsers := (History.countUsers role).
#[local] Abbreviation limitHistoryTurns := (History.limitHistoryTurns role).

Implicit Types (messages l : list AgentMessage) (m : AgentMessage).

(** A suffix that starts at a user message holds more user messages than
    any later suffix. *)
Lemma countUsers_later_suffix l (i j : nat) m :
  l !! i = Some m -> isUser m = true -> (i < j)%nat ->
  countUsers (drop j l) < countUsers (drop i l).
Proof.
  intros Hi Hu Hij. rewrite (drop_S l m i Hi), countUsers_cons, Hu.
  replace j with (Datatypes.S i + (j - Datatypes.S i))%nat by lia.
  rewrite <- drop_drop.
  pose proof (countUsers_drop role (j - Datatypes.S i) (drop (Datatypes.S i) l)). lia.
Qed.

(** So the suffix that starts at a user message and holds a given number
    of them is unique. *)
Lemma user_suffix_unique l (i j : nat) mi mj :
  l !! i = Some mi -> isUser mi = true ->
  l !! j = Some mj -> isUser mj = true ->
  countUsers (drop i l) = countUsers (drop j l) -> i = j.
Proof.
  intros Hi Hui Hj Huj Hc.
  destruct (Nat.lt_trichotomy i j) as [Hlt|[->|Hgt]]; [|done|].
  - pose proof (countUsers_later_suffix l i j mi Hi Hui Hlt). lia.
  - pose proof (countUsers_later_suffix l j i mj Hj Huj Hgt). lia.
Qed.

Lemma bind_Ok {A B} (x : A) (f : A -> result B) : (Ok x ≫= f) = f x.
Proof. done. Qed.

(** X19: limiting twice is limiting once to the smaller limit: for
    positive limits, running [limitHistoryTurns] with [inner] and then with
    [outer] on what is left gives what one run with the smaller of the two
    gives.  In particular a second run with the same limit changes
    nothing. *)
Theorem limitHistoryTurns_twice_is_smaller_limit :
  forall (messages : list AgentMessage) (inner outer : Z),
    0 < inner -> 0 < outer ->
    (limitHistoryTurns messages (Some inner)
       ≫= fun kept => limitHistoryTurns kept (Some outer))
    = limitHistoryTurns messages (Some (Z.min outer inner)).
Proof.
  intros messages inner outer Hin Hout.
  assert (0 < Z.min outer inner) as Hmin by lia.
  destruct (limitHistoryTurns_spec role messages inner Hin)
    as [[Hle ->]|(Hlt & i & mi & -> & Hi & Hui & Hci)]; rewrite bind_Ok.
  - destruct (limitHistoryTurns_spec role messages outer Hout)
      as [[Hle' ->]|(Hlt' & _)];
      destruct (limitHistoryTurns_spec role messages _ Hmin)
        as [[Hle'' ->]|(Hlt'' & _)]; try done; try lia.
    by replace (Z.min outer inner) with outer by lia.
  - destruct (limitHistoryTurns_spec role (drop i messages) outer Hout)
      as [[Hle' ->]|(Hlt' & j & mj & -> & Hj & Huj & Hcj)].
    + replace (Z.min outer inner) with inner by lia.
      destruct (limitHistoryTurns_spec role messages inner Hin)
        as [[Hle'' _]|(_ & k & mk & -> & Hk & Huk & Hck)]; [lia|].
      f_equal. f_equal. symmetry. eapply user_suffix_unique; eauto. lia.
    + replace (Z.min outer inner) with outer by lia.
      rewrite drop_drop in *. rewrite lookup_drop in Hj.
      destruct (limitHistoryTurns_spec role messages outer Hout)
        as [[Hle'' _]|(_ & k & mk & -> & Hk & Huk & Hck)]; [lia|].
      f_equal. f_equal. symmetry. eapply user_suffix_unique; eauto. lia.
Qed.

(** X20: with a positive limit the history comes back whole exactly when
    it holds no more user messages than the limit. *)
Theorem limitHistoryTurns_whole_iff_few_turns :
  forall (messages : list AgentMessage) (limit : Z),
    0 < limit ->
    (limitHistoryTurns messages (Some limit) = Ok messages
     <-> countUsers messages <= limit).
Proof.
  intros messages limit Hl.
  destruct (limitHistoryTurns_spec role messages limit Hl)
    as [[Hle ->]|(Hlt & i & mi & -> & Hi & Hui & Hci)]; [done|].
  split; [|lia]. intros [= Heq]. rewrite Heq in Hci. lia.
Qed.


End LimiterRunFacts.

Lemma limitHistoryTurns_twice_is_smaller_limit_witness :
  (History.limitHistoryTurns Examples.roleOf Examples.tenTurns (Some 5)
     ≫= fun kept => History.limitHistoryTurns Examples.roleOf kept (Some 3))
  = History.limitHistoryTurns Examples.roleOf Examples.tenTurns (Some (Z.min 3 5)).
Proof.
  apply limitHistoryTurns_twice_is_smaller_limit; by vm_compute.
Defined.

Lemma limitHistoryTurns_whole_iff_few_turns_witness :
  History.limitHistoryTurns Examples.roleOf Examples.tenTurns (Some 10)
  = Ok Examples.tenTurns
  <-> History.countUsers Examples.roleOf Examples.tenTurns <= 10.
Proof.
  apply limitHistoryTurns_whole_iff_few_turns. by vm_compute.
Defined.

(** ** The thread suffix of a session key *)

Section ThreadSuffixFacts.

Import History.

Lemma takeWhile_app_stop {A} (p : A -> bool) (l1 l2 : list A) (x : A) :
  forallb p l1 = true -> p x = false -> takeWhile p (l1 ++ x :: l2) = l1.
Proof.
  intros Hl Hx. induction l1 as [|y l1 IH]; simpl in *; [by rewrite Hx|].
  apply andb_true_iff in Hl as [-> Hl]. by rewrite IH.
Qed.

Lemma dropWhile_app_stop {A} (p : A -> bool) (l1 l2 : list A) (x : A) :
  forallb p l1 = true -> p x = false -> dropWhile p (l1 ++ x :: l2) = x :: l2.
Proof.
  intros Hl Hx. induction l1 as [|y l1 IH]; simpl in *; [by rewrite Hx|].
  apply andb_true_iff in Hl as [-> Hl]. by rewrite IH.
Qed.

Lemma takeWhile_dropWhile {A} (p : A -> bool) (l : list A) :
  takeWhile p l ++ dropWhile p l = l.
Proof. induction l as [|x l IH]; simpl; [done|]. destruct (p x); simpl; by rewrite ?IH. Qed.

Lemma takeWhile_forallb {A} (p : A -> bool) (l : list A) :
  forallb p (takeWhile p l) = true.
Proof.
  induction l as [|x l IH]; simpl; [done|].
  destruct (p x) eqn:E; simpl; by rewrite ?E, ?IH.
Qed.

Lemma dropWhile_stops {A} (p : A -> bool) (l r : list A) (x : A) :
  dropWhile p l = x :: r -> p x = false.
Proof.
  induction l as [|y l IH]; simpl; [done|].
  destruct (p y) eqn:E; [done|]. by intros [= -> _].
Qed.

Lemma forallb_reverse {A} (p : A -> bool) (l : list A) :
  forallb p (reverse l) = forallb p l.
Proof.
  apply eq_true_iff_eq. rewrite !forallb_forall.
  split; intros H x Hx; apply H; apply list_elem_of_In;
    apply list_elem_of_In in Hx; by apply elem_of_reverse.
Qed.

(** The words of the pattern hold no colon, in any case. *)
Lemma keyword_no_colon word :
  foldCase <$> word = u16 "thread" \/ foldCase <$> word = u16 "topic" ->
  forallb (fun c => negb (c =? colon)%N) word = true.
Proof.
  intros H. apply forallb_forall. intros c Hc%list_elem_of_In.
  destruct (N.eqb_spec c colon) as [->|]; [exfalso|done].
  assert (colon ∈ foldCase <$> word) as Hin
    by (apply list_elem_of_fmap; by exists colon).
  assert (Forall (fun d => d ≠ colon) (u16 "thread")) as Hthread
    by (apply (bool_decide_unpack _); by vm_compute).
  assert (Forall (fun d => d ≠ colon) (u16 "topic")) as Htopic
    by (apply (bool_decide_unpack _); by vm_compute).
  destruct H as [H|H]; rewrite H in Hin.
  - by apply (proj1 (Forall_forall _ _) Hthread colon Hin).
  - by apply (proj1 (Forall_forall _ _) Htopic colon Hin).
Qed.

Lemma isDigit_not_colon c : isDigit c = true -> (c =? colon)%N = false.
Proof.
  unfold isDigit, colon. intros [H1 H2]%andb_true_iff.
  apply N.leb_le in H1, H2. apply N.eqb_neq. lia.
Qed.

Lemma matchThreadSuffix_suffix (id word digits : jsstring) :
  forallb (fun c => negb (isLineTerminator c)) id = true ->
  foldCase <$> word = u16 "thread" \/ foldCase <$> word = u16 "topic" ->
  digits ≠ [] ->
  forallb isDigit digits = true ->
  matchThreadSuffix (id ++ colon :: word ++ colon :: digits) = Some id.
Proof.
  intros Hid Hword Hne Hdigits. unfold matchThreadSuffix.
  assert (reverse (id ++ colon :: word ++ colon :: digits)
          = reverse digits ++ colon :: reverse word ++ colon :: reverse id) as ->.
  { rewrite reverse_app, reverse_cons, reverse_app, reverse_cons.
    by rewrite <- !app_assoc. }
  rewrite takeWhile_app_stop, dropWhile_app_stop
    by (by rewrite ?forallb_reverse).
  destruct (reverse digits) as [|d ds] eqn:Ed.
  { apply (f_equal reverse) in Ed. rewrite reverse_involutive in Ed. done. }
  rewrite N.eqb_refl.
  pose proof (keyword_no_colon word Hword) as Hnc.
  rewrite takeWhile_app_stop, dropWhile_app_stop
    by (by rewrite ?forallb_reverse, ?N.eqb_refl).
  rewrite !reverse_involutive, forallb_reverse, Hid.
  destruct Hword as [-> | ->]; by rewrite ?bool_decide_eq_true_2 by done.
Qed.

(** X22: a thread or topic suffix is taken off whole.  For an identifier
    without line terminators, followed by a colon, the word [thread] or
    [topic] in any mix of cases, a colon and at least one decimal digit,
    [stripThreadSuffix] returns the identifier, colons inside it
    included. *)
Theorem stripThreadSuffix_takes_suffix_off :
  forall (id word digits : jsstring),
    forallb (fun c => negb (isLineTerminator c)) id = true ->
    foldCase <$> word = u16 "thread" \/ foldCase <$> word = u16 "topic" ->
    digits ≠ [] ->
    forallb isDigit digits = true ->
    stripThreadSuffix (id ++ colon :: word ++ colon :: digits) = id.
Proof.
  intros id word digits Hid Hword Hne Hdigits.
  unfold stripThreadSuffix. by rewrite matchThreadSuffix_suffix.
Qed.

(** X23: nothing but such a suffix is ever taken off.  Either
    [stripThreadSuffix] returns its argument, or the argument is the result
    followed by a colon, a word that reads [thread] or [topic] when
    capitals are folded, a colon and a run of one or more decimal digits,
    and the result holds no line terminator. *)
Theorem stripThreadSuffix_takes_only_suffix_off :
  forall value : jsstring,
    stripThreadSuffix value = value
    \/ exists word digits,
         value = stripThreadSuffix value ++ colon :: word ++ colon :: digits
         /\ (foldCase <$> word = u16 "thread" \/ foldCase <$> word = u16 "topic")
         /\ digits ≠ []
         /\ forallb isDigit digits = true
         /\ forallb (fun c => negb (isLineTerminator c)) (stripThreadSuffix value) = true.
Proof.
  intros value. unfold stripThreadSuffix, matchThreadSuffix.
  pose proof (takeWhile_dropWhile isDigit (reverse value)) as Hsplit.
  pose proof (takeWhile_forallb isDigit (reverse value)) as Hds.
  destruct (takeWhile isDigit (reverse value)) as [|d ds]; [by left|].
  destruct (dropWhile isDigit (reverse value)) as [|c r1]; [by left|].
  destruct (N.eqb_spec c colon) as [->|]; [|by left].
  pose proof (takeWhile_dropWhile (fun c => negb (c =? colon)%N) r1) as Hsplit1.
  destruct (dropWhile (fun c => negb (c =? colon)%N) r1) as [|x r2] eqn:Edrop; [by left|].
  apply dropWhile_stops in Edrop. apply negb_false_iff, N.eqb_eq in Edrop as ->.
  set (w := takeWhile (fun c => negb (c =? colon)%N) r1) in *.
  destruct (_ && _) eqn:Eguard; [|by left].
  apply andb_true_iff in Eguard as [Hword Hr2]. right. simpl.
  exists (reverse w), (reverse (d :: ds)). repeat split.
  - rewrite <- (reverse_involutive value), <- Hsplit, <- Hsplit1.
    rewrite reverse_app, reverse_cons, reverse_app, reverse_cons.
    by rewrite <- !app_assoc.
  - apply orb_true_iff in Hword as [H|H]; [left|right]; by apply bool_decide_eq_true in H.
  - intros E. apply (f_equal length) in E. rewrite length_reverse in E. done.
  - by rewrite forallb_reverse.
  - by rewrite forallb_reverse.
Qed.

End ThreadSuffixFacts.

Lemma stripThreadSuffix_takes_suffix_off_witness :
  History.stripThreadSuffix
    (u16 "room:7" ++ History.colon :: u16 "Topic" ++ History.colon :: u16 "12")
  = u16 "room:7".
Proof.
  apply stripThreadSuffix_takes_suffix_off; try by vm_compute.
  right. by vm_compute.
Defined.

(** ** The session key and the configured limit *)

Section SessionKeyFacts.

Import History.

Implicit Types (parts : list jsstring) (p s : jsstring).

Lemma split_colon_free p :
  forallb (fun c => negb (c =? colon)%N) p = true -> split p = [p].
Proof.
  induction p as [|c p IH]; simpl; [done|].
  intros [Hc Hp]%andb_true_iff. apply negb_true_iff in Hc. by rewrite Hc, IH.
Qed.

Lemma split_app p s :
  forallb (fun c => negb (c =? colon)%N) p = true ->
  split (p ++ colon :: s) = p :: split s.
Proof.
  induction p as [|c p IH]; simpl; [done|].
  intros [Hc Hp]%andb_true_iff. apply negb_true_iff in Hc. by rewrite Hc, IH.
Qed.

Lemma join_cons p q parts : join (p :: q :: parts) = p ++ colon :: join (q :: parts).
Proof. done. Qed.

Lemma isSegment_inv p :
  isSegment p = true -> p ≠ [] /\ forallb (fun c => negb (c =? colon)%N) p = true.
Proof.
  unfold isSegment, nonEmpty. intros [H1 H2]%andb_true_iff. split; [|done].
  by apply negb_true_iff, bool_decide_eq_false in H1.
Qed.

Lemma split_join parts :
  parts ≠ [] -> forallb isSegment parts = true -> split (join parts) = parts.
Proof.
  induction parts as [|p [|q parts] IH]; [done| |]; intros _ Hs.
  - simpl in *. apply andb_true_iff in Hs as [Hp _].
    apply split_colon_free. by apply isSegment_inv.
  - rewrite join_cons. change (forallb isSegment (p :: q :: parts))
      with (isSegment p && forallb isSegment (q :: parts)) in Hs.
    apply andb_true_iff in Hs as [Hp Hs].
    rewrite split_app by by apply isSegment_inv. by rewrite IH.
Qed.

Lemma filter_segments parts :
  forallb isSegment parts = true -> List.filter nonEmpty parts = parts.
Proof.
  induction parts as [|p parts IH]; simpl; [done|].
  intros [Hp Hs]%andb_true_iff. unfold isSegment in Hp.
  apply andb_true_iff in Hp as [-> _]. by rewrite IH.
Qed.

Lemma join_nonEmpty parts :
  parts ≠ [] -> forallb isSegment parts = true -> nonEmpty (join parts) = true.
Proof.
  destruct parts as [|p parts]; [done|]. intros _ Hs.
  change (forallb isSegment (p :: parts))
    with (isSegment p && forallb isSegment parts) in Hs.
  apply andb_true_iff in Hs as [[Hp _]%isSegment_inv _].
  destruct p as [|c p]; [done|]. by destruct parts.
Qed.

(** A key written by joining segments with colons is read back as those
    segments. *)
Lemma key_parts parts :
  parts ≠ [] -> forallb isSegment parts = true ->
  nonEmpty (join parts) = true
  /\ List.filter nonEmpty (split (join parts)) = parts.
Proof.
  intros Hne Hs. split; [by apply join_nonEmpty|].
  rewrite split_join by done. by apply filter_segments.
Qed.

Lemma join_app parts1 parts2 :
  parts1 ≠ [] -> parts2 ≠ [] ->
  join (parts1 ++ parts2) = join parts1 ++ colon :: join parts2.
Proof.
  intros H1 H2. induction parts1 as [|p [|q parts1] IH]; [done| |].
  - destruct parts2; done.
  - change ((p :: q :: parts1) ++ parts2) with (p :: q :: (parts1 ++ parts2)).
    rewrite !join_cons. change (q :: parts1 ++ parts2) with ((q :: parts1) ++ parts2).
    rewrite IH by done. by rewrite <- app_assoc.
Qed.

Lemma forallb_join (f : N -> bool) parts :
  f colon = true -> forallb (forallb f) parts = true -> forallb f (join parts) = true.
Proof.
  intros Hc. induction parts as [|p [|q parts] IH]; [done| |]; intros Hs.
  - simpl in *. by apply andb_true_iff in Hs as [-> _].
  - rewrite join_cons.
    change (forallb (forallb f) (p :: q :: parts))
      with (forallb f p && forallb (forallb f) (q :: parts)) in Hs.
    apply andb_true_iff in Hs as [Hp Hs].
    rewrite forallb_app, Hp. cbn [forallb andb]. by rewrite Hc, IH.
Qed.

Lemma keyword_segment word :
  foldCase <$> word = u16 "thread" \/ foldCase <$> word = u16 "topic" ->
  isSegment word = true.
Proof.
  intros H. unfold isSegment. rewrite (keyword_no_colon word H), andb_true_r.
  unfold nonEmpty. apply negb_true_iff, bool_decide_eq_false.
  intros ->. by destruct H.
Qed.

Lemma digits_segment digits :
  digits ≠ [] -> forallb isDigit digits = true -> isSegment digits = true.
Proof.
  intros Hne Hd. unfold isSegment, nonEmpty.
  rewrite bool_decide_eq_false_2 by done. simpl.
  apply forallb_forall. intros c Hc.
  rewrite forallb_forall in Hd. by rewrite (isDigit_not_colon c (Hd c Hc)).
Qed.

Variable toLowerCase : jsstring -> jsstring.

#[local] Abbreviation configured := (getHistoryLimitFromSessionKey toLowerCase).

(** The lookup on a key written from segments that does not start with
    [agent]. *)
Lemma configured_plain_key cfg provider kind ids :
  forallb isSegment (provider :: kind :: ids) = true ->
  provider ≠ u16 "agent" ->
  nonEmpty (toLowerCase provider) = true ->
  configured (Some (join (provider :: kind :: ids))) (Some cfg)
  = match resolveProviderConfig (Some cfg) (toLowerCase provider) with
    | None => None
    | Some providerConfig =>
        if bool_decide (Some (toLowerCase kind) = Some (u16 "dm"))
           || bool_decide (Some (toLowerCase kind) = Some (u16 "direct"))
        then
          match (if nonEmpty (stripThreadSuffix (join ids))
                 then dmOverride providerConfig (stripThreadSuffix (join ids))
                 else None) with
          | Some limit => Some limit
          | None => dmHistoryLimit providerConfig
          end
        else if bool_decide (Some (toLowerCase kind) = Some (u16 "channel"))
                || bool_decide (Some (toLowerCase kind) = Some (u16 "group"))
        then historyLimit providerConfig
        else None
    end.
Proof.
  intros Hs Hp Hl. destruct (key_parts (provider :: kind :: ids)) as [Hne Hparts]; [done..|].
  unfold getHistoryLimitFromSessionKey. rewrite Hne, Hparts.
  assert (bool_decide ((provider :: kind :: ids) !! 0%nat = Some (u16 "agent")) = false) as ->.
  { apply bool_decide_eq_false. intros [= E]. done. }
  rewrite andb_false_r.
  change (toLowerCase <$> (provider :: kind :: ids) !! 0%nat)
    with (Some (toLowerCase provider)).
  change (toLowerCase <$> (provider :: kind :: ids) !! 1%nat)
    with (Some (toLowerCase kind)).
  change (drop 2 (provider :: kind :: ids)) with ids.
  cbn [negb]. by rewrite Hl.
Qed.

(** X24: the agent scope of a key is skipped.  A key [agent:<id>:] followed
    by a provider key resolves to the limit of the provider key alone,
    whatever the agent id. *)
Theorem agent_prefix_is_skipped :
  forall (config : option OpenClawConfig) (agentId provider : jsstring)
         (rest : list jsstring),
    forallb isSegment (agentId :: provider :: rest) = true ->
    provider ≠ u16 "agent" ->
    configured (Some (join (u16 "agent" :: agentId :: provider :: rest))) config
    = configured (Some (join (provider :: rest))) config.
Proof.
  intros config agentId provider rest Hs Hp.
  change (forallb isSegment (agentId :: provider :: rest))
    with (isSegment agentId && forallb isSegment (provider :: rest)) in Hs.
  apply andb_true_iff in Hs as [Ha Hs].
  destruct (key_parts (provider :: rest)) as [Hne Hparts]; [done..|].
  destruct (key_parts (u16 "agent" :: agentId :: provider :: rest))
    as [Hne' Hparts']; [done| |].
  { change (forallb isSegment (u16 "agent" :: agentId :: provider :: rest))
      with (isSegment (u16 "agent")
            && (isSegment agentId && forallb isSegment (provider :: rest))).
    rewrite Ha, Hs. by vm_compute. }
  destruct config as [cfg|]; [|done].
  unfold getHistoryLimitFromSessionKey. rewrite Hne, Hparts, Hne', Hparts'.
  assert ((3 <=? len (u16 "agent" :: agentId :: provider :: rest)) = true) as ->.
  { apply Z.leb_le. unfold len. simpl length. lia. }
  assert (bool_decide ((u16 "agent" :: agentId :: provider :: rest) !! 0%nat
                       = Some (u16 "agent")) = true) as ->
    by by apply bool_decide_eq_true.
  assert (bool_decide ((provider :: rest) !! 0%nat = Some (u16 "agent")) = false) as ->.
  { apply bool_decide_eq_false. intros [= E]. done. }
  by rewrite andb_false_r.
Qed.

(** X25: a thread of a direct conversation has the limit of the
    conversation.  For a direct-message key whose user id is followed by a
    thread or topic suffix, the lookup reads the override stored under the
    user id without the suffix, and the provider's [dmHistoryLimit] when
    there is none. *)
Theorem dm_thread_key_reads_user_override :
  forall (cfg : OpenClawConfig) (providerConfig : ProviderConfig)
         (provider kind word digits : jsstring) (user : list jsstring),
    forallb isSegment (provider :: kind :: user) = true ->
    user ≠ [] ->
    forallb (forallb (fun c => negb (isLineTerminator c))) user = true ->
    provider ≠ u16 "agent" ->
    nonEmpty (toLowerCase provider) = true ->
    resolveProviderConfig (Some cfg) (toLowerCase provider) = Some providerConfig ->
    toLowerCase kind = u16 "dm" \/ toLowerCase kind = u16 "direct" ->
    foldCase <$> word = u16 "thread" \/ foldCase <$> word = u16 "topic" ->
    digits ≠ [] ->
    forallb isDigit digits = true ->
    configured (Some (join (provider :: kind :: user ++ [word; digits]))) (Some cfg)
    = match dmOverride providerConfig (join user) with
      | Some limit => Some limit
      | None => dmHistoryLimit providerConfig
      end.
Proof.
  intros cfg pc provider kind word digits user Hs Hu Hlt Hp Hl Hpc Hkind Hword Hne Hd.
  change (forallb isSegment (provider :: kind :: user))
    with (isSegment provider && (isSegment kind && forallb isSegment user)) in Hs.
  apply andb_true_iff in Hs as [Hsp [Hsk Hsu]%andb_true_iff].
  rewrite configured_plain_key; [|
    change (forallb isSegment (provider :: kind :: user ++ [word; digits]))
      with (isSegment provider
            && (isSegment kind && forallb isSegment (user ++ [word; digits])));
    rewrite Hsp, Hsk, forallb_app, Hsu; simpl;
    by rewrite (keyword_segment word), (digits_segment digits) | done..].
  rewrite Hpc.
  assert (bool_decide (Some (toLowerCase kind) = Some (u16 "dm"))
          || bool_decide (Some (toLowerCase kind) = Some (u16 "direct")) = true) as ->.
  { apply orb_true_iff.
    destruct Hkind as [-> | ->]; [left|right]; by apply bool_decide_eq_true. }
  rewrite join_app by done. simpl (join [word; digits]).
  unfold stripThreadSuffix.
  rewrite matchThreadSuffix_suffix by (done || by apply forallb_join).
  simpl. by rewrite join_nonEmpty.
Qed.

(** X26: a channel or group key reads the provider's [historyLimit] and
    nothing else: whatever segments follow the kind, no direct-message
    limit and no per-user override has a say. *)
Theorem channel_key_reads_historyLimit :
  forall (cfg : OpenClawConfig) (providerConfig : ProviderConfig)
         (provider kind : jsstring) (ids : list jsstring),
    forallb isSegment (provider :: kind :: ids) = true ->
    provider ≠ u16 "agent" ->
    nonEmpty (toLowerCase provider) = true ->
    resolveProviderConfig (Some cfg) (toLowerCase provider) = Some providerConfig ->
    toLowerCase kind = u16 "channel" \/ toLowerCase kind = u16 "group" ->
    configured (Some (join (provider :: kind :: ids))) (Some cfg)
    = historyLimit providerConfig.
Proof.
  intros cfg pc provider kind ids Hs Hp Hl Hpc Hkind.
  rewrite configured_plain_key by done. rewrite Hpc.
  destruct Hkind as [-> | ->]; by vm_compute.
Qed.

(** X27: the lookup never makes a limit up.  A limit it returns is the
    [historyLimit] or the [dmHistoryLimit] of a provider entry of the
    configuration, or the [historyLimit] of one of that entry's per-user
    overrides. *)
Theorem configured_limit_comes_from_config :
  forall (sessionKey : option jsstring) (config : option OpenClawConfig) (limit : Z),
    configured sessionKey config = Some limit ->
    exists cfg table provider providerConfig,
      config = Some cfg
      /\ channels cfg = Some table
      /\ table !! provider = Some (EntryObject providerConfig)
      /\ (historyLimit providerConfig = Some limit
          \/ dmHistoryLimit providerConfig = Some limit
          \/ exists overrides user dm,
               dms providerConfig = Some overrides
               /\ overrides !! user = Some dm
               /\ dm_historyLimit dm = Some limit).
Proof.
  intros sessionKey config limit. unfold getHistoryLimitFromSessionKey.
  destruct sessionKey as [key|]; [|done]. destruct config as [cfg|]; [|done].
  destruct (negb (nonEmpty key)); [done|].
  destruct (toLowerCase <$> _ !! 0%nat) as [provider|]; [|done].
  destruct (negb (nonEmpty provider)); [done|].
  unfold resolveProviderConfig. simpl.
  destruct (channels cfg) as [table|] eqn:Etable; [|done].
  destruct (table !! provider) as [[pc|]|] eqn:Eentry; [|done..].
  intros H. exists cfg, table, provider, pc. repeat split; try done.
  destruct (_ || _).
  - destruct (nonEmpty _); [|by right; left].
    unfold dmOverride in H.
    destruct (dms pc) as [overrides|] eqn:Edms; [|by right; left].
    destruct (overrides !! _) as [dm|] eqn:Edm; [|by right; left].
    destruct (dm_historyLimit dm) as [l|] eqn:El; [|by right; left].
    right. right. do 3 eexists. split; [reflexivity|]. split; [exact Edm|].
    congruence.
  - destruct (_ || _); [by left | done].
Qed.

End SessionKeyFacts.

Lemma agent_prefix_is_skipped_witness :
  History.getHistoryLimitFromSessionKey Examples.asciiLower
    (Some (History.join [u16 "agent"; u16 "main"; u16 "telegram"; u16 "dm"; u16 "u1"]))
    (Some (Examples.telegram 50))
  = History.getHistoryLimitFromSessionKey Examples.asciiLower
      (Some (History.join [u16 "telegram"; u16 "dm"; u16 "u1"]))
      (Some (Examples.telegram 50)).
Proof.
  apply (agent_prefix_is_skipped Examples.asciiLower (Some (Examples.telegram 50))
           (u16 "main") (u16 "telegram") [u16 "dm"; u16 "u1"]); by vm_compute.
Defined.

Lemma dm_thread_key_reads_user_override_witness :
  History.getHistoryLimitFromSessionKey Examples.asciiLower
    (Some (History.join ([u16 "Telegram"; u16 "direct"; u16 "u1"]
                           ++ [u16 "THREAD"; u16 "42"])))
    (Some (Examples.telegram 50))
  = Some 99.
Proof.
  refine (eq_trans
    (dm_thread_key_reads_user_override Examples.asciiLower (Examples.telegram 50)
       (History.mkProviderConfig (Some 7) (Some 50)
          (Some {[ u16 "u1" := History.mkDmConfig (Some 99) ]}))
       (u16 "Telegram") (u16 "direct") (u16 "THREAD") (u16 "42") [u16 "u1"]
       _ _ _ _ _ _ _ _ _ _) _); try by vm_compute.
  - right. by vm_compute.
  - left. by vm_compute.
Defined.

Lemma channel_key_reads_historyLimit_witness :
  History.getHistoryLimitFromSessionKey Examples.asciiLower
    (Some (History.join [u16 "telegram"; u16 "group"; u16 "u1"; u16 "topic"; u16 "3"]))
    (Some (Examples.telegram 50))
  = Some 7.
Proof.
  refine (eq_trans
    (channel_key_reads_historyLimit Examples.asciiLower (Examples.telegram 50)
       (History.mkProviderConfig (Some 7) (Some 50)
          (Some {[ u16 "u1" := History.mkDmConfig (Some 99) ]}))
       (u16 "telegram") (u16 "group") [u16 "u1"; u16 "topic"; u16 "3"]
       _ _ _ _ _) _); try by vm_compute.
  right. by vm_compute.
Defined.

Lemma configured_limit_comes_from_config_witness :
  exists cfg table provider providerConfig,
    Some (Examples.telegram 50) = Some cfg
    /\ History.channels cfg = Some table
    /\ table !! provider = Some (History.EntryObject providerConfig)
    /\ (History.historyLimit providerConfig = Some 99
        \/ History.dmHistoryLimit providerConfig = Some 99
        \/ exists overrides user dm,
             History.dms providerConfig = Some overrides
             /\ overrides !! user = Some dm
             /\ History.dm_historyLimit dm = Some 99).
Proof.
  apply (configured_limit_comes_from_config Examples.asciiLower
           (Some (u16 "telegram:dm:u1")) (Some (Examples.telegram 50)) 99).
  by vm_compute.
Defined.

(** ** The ceiling and the limiter together *)

Section EffectiveLimitFacts.

Import History.

Context {AgentMessage : Type}.
Variable role : AgentMessage -> jsstring.
Variable toLowerCase : jsstring -> jsstring.

#[local] Abbreviation configured := (getHistoryLimitFromSessionKey toLowerCase).
#[local] Abbreviation effective := (resolveEffectiveHistoryLimit toLowerCase).

(** X28: a value of [LLM_MAX_HISTORY_TURNS] that does not read as a
    positive number is ignored: when what is left after trimming does not
    start with a numeral, or the numeral is zero or negative, the effective
    limit is the configured one. *)
Theorem unusable_ceiling_is_ignored :
  forall (raw : jsstring) (sessionKey : option jsstring)
         (config : option OpenClawConfig),
    parseInt10 (trim raw) = None
    \/ (exists n, parseInt10 (trim raw) = Some n /\ n <= 0) ->
    effective (Some raw) sessionKey config = configured sessionKey config.
Proof.
  intros raw sessionKey config H. unfold resolveEffectiveHistoryLimit. simpl.
  destruct (nonEmpty (trim raw)); [|done].
  destruct H as [-> | (n & -> & Hn)]; [done|].
  destruct (Z.ltb_spec 0 n); [lia|]. by rewrite andb_false_r.
Qed.

(** X29: the ceiling bounds what the limiter keeps.  With a positive
    ceiling in the environment, and a configured limit that is absent or
    positive, the history cut to the effective limit holds at most
    [ceiling] user messages. *)
Theorem ceiling_bounds_kept_turns :
  forall (messages : list AgentMessage) (raw : jsstring) (ceiling : Z)
         (sessionKey : option jsstring) (config : option OpenClawConfig),
    parseInt10 (trim raw) = Some ceiling ->
    0 < ceiling <= MAX_SAFE_INTEGER ->
    0 < default 1 (configured sessionKey config) ->
    exists kept,
      limitHistoryTurns role messages (effective (Some raw) sessionKey config) = Ok kept
      /\ countUsers role kept <= ceiling.
Proof.
  intros messages raw ceiling sessionKey config Hp Hc Hpos.
  rewrite (resolve_with_ceiling toLowerCase raw ceiling) by done.
  set (limit := match configured sessionKey config with
                | Some limit => Z.min limit ceiling
                | None => ceiling
                end).
  assert (0 < limit <= ceiling) as Hl.
  { unfold limit. destruct (configured sessionKey config); simpl in Hpos; lia. }
  destruct (limitHistoryTurns_spec role messages limit)
    as [[Hle ->]|(_ & i & m & -> & _ & _ & Hcount)]; [lia| |].
  - exists messages. split; [done | lia].
  - exists (drop i messages). split; [done | lia].
Qed.

(** X30: a configured limit of zero or less switches the ceiling off.
    The effective limit is then zero or less whatever the environment
    holds, and the limiter returns the whole history. *)
Theorem nonpositive_configured_limit_defeats_ceiling :
  forall (messages : list AgentMessage) (env sessionKey : option jsstring)
         (config : option OpenClawConfig) (limit : Z),
    configured sessionKey config = Some limit ->
    limit <= 0 ->
    limitHistoryTurns role messages (effective env sessionKey config) = Ok messages.
Proof.
  intros messages env sessionKey config limit Hc Hl.
  apply limitHistoryTurns_unlimited. right. left.
  unfold resolveEffectiveHistoryLimit. rewrite Hc.
  destruct (match trim <$> env with
            | Some raw => if nonEmpty raw then parseInt10 raw else None
            | None => None
            end) as [e|]; [|by exists limit].
  destruct (negb (e =? 0) && isFiniteNumber e && (0 <? e)).
  - exists (Z.min limit e). split; [done | lia].
  - by exists limit.
Qed.

End EffectiveLimitFacts.

Lemma unusable_ceiling_is_ignored_witness :
  History.resolveEffectiveHistoryLimit Examples.asciiLower (Some (u16 " -30 "))
    (Some (u16 "telegram:dm:u2")) (Some (Examples.telegram 50))
  = History.getHistoryLimitFromSessionKey Examples.asciiLower
      (Some (u16 "telegram:dm:u2")) (Some (Examples.telegram 50)).
Proof.
  apply unusable_ceiling_is_ignored. right. exists (-30). by vm_compute.
Defined.

Lemma ceiling_bounds_kept_turns_witness :
  exists kept,
    History.limitHistoryTurns Examples.roleOf Examples.tenTurns
      (History.resolveEffectiveHistoryLimit Examples.asciiLower (Some (u16 "3"))
         (Some (u16 "telegram:dm:u2")) (Some (Examples.telegram 50)))
    = Ok kept
    /\ History.countUsers Examples.roleOf kept <= 3.
Proof.
  apply ceiling_bounds_kept_turns; by vm_compute.
Defined.

Lemma nonpositive_configured_limit_defeats_ceiling_witness :
  History.limitHistoryTurns Examples.roleOf Examples.tenTurns
    (History.resolveEffectiveHistoryLimit Examples.asciiLower (Some (u16 "3"))
       (Some (u16 "telegram:dm:u2")) (Some (Examples.telegram 0)))
  = Ok Examples.tenTurns.
Proof.
  apply (nonpositive_configured_limit_defeats_ceiling Examples.roleOf Examples.asciiLower
           Examples.tenTurns (Some (u16 "3")) (Some (u16 "telegram:dm:u2"))
           (Some (Examples.telegram 0)) 0); by vm_compute.
Defined.
